(** * The editablejs document model: Element (packages/model/src/element.ts)

    A shallow embedding of the [Element] class and of the part of its
    collaborators ([Node], [Text], the key source, lodash [isEqual]) that
    the Element operations call into.

    Objects are tree values; a method that writes to its receiver returns the
    receiver's new state, and the key source is threaded explicitly. *)

From Stdlib Require Import ZArith Lia.
From stdpp Require Import base option list strings gmap.

Local Open Scope Z_scope.
Set Warnings "-register-all".

(** ** JavaScript array primitives used by element.ts *)

Module JSArray.
Section Ops.
Context {A : Type}.

(** [Array.prototype.findIndex]: index of the first element satisfying
    the callback, [-1] when there is none. *)
Fixpoint findIndexFrom (p : A → bool) (i : Z) (l : list A) : Z :=
  match l with
  | [] => -1
  | x :: l' => if p x then i else findIndexFrom p (i + 1) l'
  end.

Definition findIndex (p : A → bool) (l : list A) : Z := findIndexFrom p 0 l.

(** [arr[i]] for an integer index; [None] stands for [undefined]. *)
Definition at_index (l : list A) (i : Z) : option A :=
  if i <? 0 then None else l !! Z.to_nat i.

(** Relative-index normalisation shared by [slice] and [splice]: a
    negative index counts from the end and is floored at 0, a large one
    is capped at the length. *)
Definition relIndex (len i : Z) : Z :=
  if i <? 0 then Z.max (len + i) 0 else Z.min i len.

(** [arr.slice(start, end)]. *)
Definition slice (start final : Z) (l : list A) : list A :=
  let len := Z.of_nat (length l) in
  let k := relIndex len start in
  let e := relIndex len final in
  take (Z.to_nat (e - k)) (drop (Z.to_nat k) l).

(** [arr.slice(start)]: the end defaults to the length. *)
Definition sliceFrom (start : Z) (l : list A) : list A :=
  slice start (Z.of_nat (length l)) l.

(** [arr.splice(start, deleteCount, ...items)]: the removed elements and
    the array after the call. *)
Definition splice (start deleteCount : Z) (items : list A) (l : list A)
  : list A * list A :=
  let len := Z.of_nat (length l) in
  let actualStart := relIndex len start in
  let actualDelete := Z.min (Z.max deleteCount 0) (len - actualStart) in
  (take (Z.to_nat actualDelete) (drop (Z.to_nat actualStart) l),
   take (Z.to_nat actualStart) l ++ items
     ++ drop (Z.to_nat (actualStart + actualDelete)) l).

(** [arr.some(p)] and [arr.every(p)]. *)
Definition some (p : A → bool) (l : list A) : bool := existsb p l.
Definition every (p : A → bool) (l : list A) : bool := forallb p l.

(** [arr.push(x)]. *)
Definition push (x : A) (l : list A) : list A := l ++ [x].
End Ops.

(** [keys.includes(k)] on an array of strings. *)
Definition includes (keys : list string) (k : string) : bool :=
existsb (λ k', bool_decide (k' = k)) keys.
End JSArray.

(** ** Data model *)

Definition NodeKey := string.

(** Values of a style map: [string | number].  Numbers are represented by
    integers. *)
Inductive StyleValue : Type :=
| StyleString (s : string)
| StyleNumber (n : Z).

Global Instance StyleValue_eq_dec : EqDecision StyleValue.
Proof. solve_decision. Defined.

(** [ElementStyle = Record<string, string | number>]. *)
Abbreviation ElementStyle := (gmap string StyleValue).

(** Modelled from the spec: the constants [DATA_TYPE_ELEMENT] and
    [DATA_TYPE_TEXT] of [@editablejs/constants], the discriminant tags of
    elements and of text leaves. *)
Definition DATA_TYPE_ELEMENT : string := "element".
Definition DATA_TYPE_TEXT : string := "text".

(** Modelled from the spec: the serializable description of a node
    ([NodeOptions], [TextOptions], [ElementOptions], [NodeObject] and
    [ElementObject] in one shape).  The base fields [key], [type], [parent]
    and the leaf payload [text] come from ./node and ./text; [size] and
    [children] are the fields element.ts declares; [style] is the optional
    field of the snapshot shape, which element.ts neither writes nor
    reads.  [None] is an absent ([undefined]) field. *)
Inductive NodeOptions : Type := mkNodeOptions {
  opt_key : option NodeKey;
  opt_type : option string;
  opt_parent : option NodeKey;
  opt_text : option string;
  opt_style : option ElementStyle;
  opt_size : option Z;
  opt_children : option (list NodeOptions) }.

(** [Object.assign({}, options, { parent: p })]. *)
Definition assign_parent (p : option NodeKey) (o : NodeOptions) : NodeOptions :=
  mkNodeOptions (opt_key o) (opt_type o) p (opt_text o) (opt_style o)
    (opt_size o) (opt_children o).

(** [Object.assign({}, options, { key: k })]. *)
Definition assign_key (k : option NodeKey) (o : NodeOptions) : NodeOptions :=
  mkNodeOptions k (opt_type o) (opt_parent o) (opt_text o) (opt_style o)
    (opt_size o) (opt_children o).

(** The live objects: an [Element] with its [children] and [style] fields
    on top of the base fields [key], [parent], [type]; or a text leaf. *)
Inductive Node : Type :=
| ElementNode (key : NodeKey) (parent : option NodeKey) (type : string)
    (style : ElementStyle) (children : list Node)
| TextNode (key : NodeKey) (parent : option NodeKey) (text : string).

(** Modelled from the spec: the key-source collaborator
    ([generateRandomKey] behind the base constructor).  The source of
    randomness is an oracle: the stream of keys it will hand out. *)
Definition KeySource := nat → NodeKey.

(** Modelled from the spec: one call of the key source, the key it
    supplies and the key source afterwards. *)
Definition generateKey (ks : KeySource) : NodeKey * KeySource :=
  (ks 0%nat, λ n, ks (S n)).

(** Threading the key source through [arr.map(f)] / [arr.forEach(f)]. *)
Definition mapKS {A B : Type} (f : A → KeySource → B * KeySource)
  : list A → KeySource → list B * KeySource :=
  fix go (l : list A) (ks : KeySource) : list B * KeySource :=
    match l with
    | [] => ([], ks)
    | x :: l' =>
        let '(y, ks1) := f x ks in
        let '(ys, ks2) := go l' ks1 in
        (y :: ys, ks2)
    end.

Definition forEachKS {A S : Type} (f : A → S → KeySource → S * KeySource)
  : list A → S → KeySource → S * KeySource :=
  fix go (l : list A) (s : S) (ks : KeySource) : S * KeySource :=
    match l with
    | [] => (s, ks)
    | x :: l' => let '(s1, ks1) := f x s ks in go l' s1 ks1
    end.

(** ** The base class Node (./node) *)

Module NodeBase.
(** Modelled from the spec: [getKey()]. *)
Definition getKey (n : Node) : NodeKey :=
  match n with
  | ElementNode key _ _ _ _ => key
  | TextNode key _ _ => key
  end.

(** Modelled from the spec: [getParentKey()]. *)
Definition getParentKey (n : Node) : option NodeKey :=
  match n with
  | ElementNode _ parent _ _ _ => parent
  | TextNode _ parent _ => parent
  end.

(** Modelled from the spec: [getType()], the discriminant tag. *)
Definition getType (n : Node) : string :=
  match n with
  | ElementNode _ _ type _ _ => type
  | TextNode _ _ _ => DATA_TYPE_TEXT
  end.

(** Modelled from the spec: the base constructor assigns the node's own
    key, generating one when the description gives none. *)
Definition assignKey (options : NodeOptions) (ks : KeySource)
  : NodeKey * KeySource :=
  match opt_key options with
  | Some k => (k, ks)
  | None => generateKey ks
  end.

(** Modelled from the spec: the base [compare], content equality that
    leaves the key out: the type tags agree. *)
Definition compare (this node : Node) : bool :=
  bool_decide (getType this = getType node).

(** Modelled from the spec: the base [toJSON()], the plain attribute map
    with [key], [type] and [parent]. *)
Definition toJSON (this : Node) : NodeOptions :=
  mkNodeOptions (Some (getKey this)) (Some (getType this))
    (getParentKey this) None None None None.
End NodeBase.

(** ** The leaf class Text (./text) *)

Module Text.
(** Modelled from the spec: [Text.isText], [node instanceof Text]. *)
Definition isText (n : Node) : bool :=
  match n with TextNode _ _ _ => true | _ => false end.

(** Modelled from the spec: [getText()], the content of the leaf. *)
Definition getText (n : Node) : string :=
  match n with TextNode _ _ text => text | _ => EmptyString end.

(** Modelled from the spec: the leaf constructor; [parent] is the value
    of the description's [parent] field. *)
Definition new (parent : option NodeKey) (options : NodeOptions)
    (ks : KeySource) : Node * KeySource :=
  let '(key, ks1) := NodeBase.assignKey options ks in
  (TextNode key parent (default EmptyString (opt_text options)), ks1).

(** Modelled from the spec: a leaf is empty when it has no content. *)
Definition isEmpty (this : Node) : bool :=
  bool_decide (getText this = EmptyString).

(** Modelled from the spec: leaf equality, the base comparison and equal
    content. *)
Definition compare (this node : Node) : bool :=
  if negb (isText node) then false
  else NodeBase.compare this node && bool_decide (getText this = getText node).

(** Modelled from the spec: the leaf-specific serialized shape. *)
Definition toJSON (this : Node) : NodeOptions :=
  let json := NodeBase.toJSON this in
  mkNodeOptions (opt_key json) (opt_type json) (opt_parent json)
    (Some (getText this)) None None None.
End Text.

(** lodash [isEqual] on two style maps: same properties with equal values,
    whatever the order they were written in. *)
Definition isEqual (a b : ElementStyle) : bool := bool_decide (a = b).

(** ** The class Element (element.ts) *)

Module Element.
Import NodeBase.

(** [Element.isElement]: [node instanceof Element]. *)
Definition isElement (node : Node) : bool :=
  match node with ElementNode _ _ _ _ _ => true | TextNode _ _ _ => false end.

(** [Element.isElementObject]: [nodeObj.type !== DATA_TYPE_TEXT]. *)
Definition isElementObject (nodeObj : NodeOptions) : bool :=
  negb (bool_decide (opt_type nodeObj = Some DATA_TYPE_TEXT)).

(** The constructor.  [super(...)] assigns key, parent and type (the type
    defaults to [DATA_TYPE_ELEMENT]); the field initialisers then set
    [children = []] and [style = {}]; the body maps the child
    descriptions, in order, to freshly built children.

    [parent] is the value of the description's [parent] field: the body's
    [child.parent = this.getKey()] followed by
    [Element.createChildNode(child)] is the recursive call at
    [Some key], see [new_unfold].  The dispatch on the child's type tag
    is [Node.create]'s (modelled from the spec: an Element unless the
    description carries the text tag, the leaf otherwise). *)
Fixpoint newAt (parent : option NodeKey) (options : NodeOptions)
    (ks : KeySource) {struct options} : Node * KeySource :=
  let '(key, ks1) := assignKey options ks in
  let type := default DATA_TYPE_ELEMENT (opt_type options) in
  let '(children, ks2) :=
    match opt_children options with
    | Some descriptions =>
        mapKS (λ child ks',
                 if isElementObject child then newAt (Some key) child ks'
                 else Text.new (Some key) child ks')
              descriptions ks1
    | None => ([], ks1)
    end in
  (ElementNode key parent type ∅ children, ks2).

(** [new Element(options)]. *)
Definition new (options : NodeOptions) (ks : KeySource) : Node * KeySource :=
  newAt (opt_parent options) options ks.

(** [Element.create]. *)
Definition create (options : NodeOptions) (ks : KeySource)
  : Node * KeySource := new options ks.

(** Modelled from the spec: [Node.create] of ./node, the polymorphic
    constructor.  It dispatches on the description's type tag: the Element
    constructor unless the tag is the text tag, the leaf constructor
    otherwise. *)
Definition Node_create (options : NodeOptions) (ks : KeySource)
  : Node * KeySource :=
  if isElementObject options then create options ks
  else Text.new (opt_parent options) options ks.

(** [Element.createChildNode]: [Node.create(options)]. *)
Definition createChildNode (options : NodeOptions) (ks : KeySource)
  : Node * KeySource := Node_create options ks.

(** [Element.isRoot]: [!node.getParentKey()]; the empty string is falsy. *)
Definition isRoot (node : Node) : bool :=
  match getParentKey node with
  | None => true
  | Some p => bool_decide (p = EmptyString)
  end.

Definition getChildren (this : Node) : list Node :=
  match this with
  | ElementNode _ _ _ _ children => children
  | TextNode _ _ _ => []
  end.

(** [this.children = children]. *)
Definition setChildren (children : list Node) (this : Node) : Node :=
  match this with
  | ElementNode key parent type style _ =>
      ElementNode key parent type style children
  | TextNode _ _ _ => this
  end.

Definition getStyle (this : Node) : ElementStyle :=
  match this with
  | ElementNode _ _ _ style _ => style
  | TextNode _ _ _ => ∅
  end.

Definition setStyle (style : ElementStyle) (this : Node) : Node :=
  match this with
  | ElementNode key parent type _ children =>
      ElementNode key parent type style children
  | TextNode _ _ _ => this
  end.

Definition getChildrenSize (this : Node) : Z :=
  Z.of_nat (length (getChildren this)).

Definition getChildrenKeys (this : Node) : list NodeKey :=
  map getKey (getChildren this).

(** [toJSON(includeChild = true)].  [child.toJSON()] is a dynamic
    dispatch: on a text leaf it is [Text.toJSON]. *)
Fixpoint toJSON (includeChild : bool) (this : Node) : NodeOptions :=
  match this with
  | TextNode _ _ _ => Text.toJSON this
  | ElementNode _ _ _ _ children =>
      let json := NodeBase.toJSON this in
      let json_children :=
        if includeChild then map (toJSON true) children else [] in
      mkNodeOptions (opt_key json) (opt_type json) (opt_parent json)
        (opt_text json) (opt_style json)
        (Some (Z.of_nat (length children))) (Some json_children)
  end.

(** The child rebuilt by [appendChild] and [insert]:
    [Element.createChildNode(Object.assign({}, child.toJSON(),
    { parent: this.getKey() }))]. *)
Definition adopt (this child : Node) (ks : KeySource) : Node * KeySource :=
  createChildNode (assign_parent (Some (getKey this)) (toJSON true child)) ks.

(** [appendChild(child)]: the receiver and the key source after the
    call. *)
Definition appendChild (child : Node) (this : Node) (ks : KeySource)
  : Node * KeySource :=
  let '(c, ks1) := adopt this child ks in
  (setChildren (JSArray.push c (getChildren this)) this, ks1).

(** [removeChild(key)]: the receiver after the call. *)
Definition removeChild (key : NodeKey) (this : Node) : Node :=
  let index :=
    JSArray.findIndex (λ child, bool_decide (getKey child = key))
      (getChildren this) in
  if index <? 0 then this
  else setChildren (JSArray.splice index 1 [] (getChildren this)).2 this.

Definition hasChild (key : NodeKey) (this : Node) : bool :=
  JSArray.some (λ child, bool_decide (getKey child = key)) (getChildren this).

Definition first (this : Node) : option Node :=
  JSArray.at_index (getChildren this) 0.

Definition last (this : Node) : option Node :=
  JSArray.at_index (getChildren this) (Z.of_nat (length (getChildren this)) - 1).

(** [insert(index, ...child)], for an integral index: the receiver and
    the key source after the call. *)
Definition insert (index : Z) (child : list Node) (this : Node)
    (ks : KeySource) : Node * KeySource :=
  let '(items, ks1) := mapKS (λ c ks', adopt this c ks') child ks in
  (setChildren (JSArray.splice index 0 items (getChildren this)).2 this, ks1).

(** [split(offset)], for an integral offset: the returned pair
    [[cloneLeft, cloneRight]], the receiver after the call and the key
    source after the call. *)
Definition split (offset : Z) (this : Node) (ks : KeySource)
  : (Node * Node) * Node * KeySource :=
  let size := getChildrenSize this in
  let offset := if offset <? 0 then 0 else offset in
  let offset := if offset >? size then size else offset in
  let left := JSArray.slice 0 offset (getChildren this) in
  let right := JSArray.sliceFrom offset (getChildren this) in
  let json := toJSON false this in
  let '(cloneLeft, ks1) := create json ks in
  let '(cloneLeft, ks2) := forEachKS appendChild left cloneLeft ks1 in
  let '(cloneRight, ks3) := create (assign_key None json) ks2 in
  let '(cloneRight, ks4) := forEachKS appendChild right cloneRight ks3 in
  ((cloneLeft, cloneRight), this, ks4).

(** [empty()]: the receiver after the call. *)
Definition empty (this : Node) : Node := setChildren [] this.

(** [isEmpty()]; on a text leaf the dispatch reaches [Text.isEmpty]. *)
Fixpoint isEmpty (this : Node) : bool :=
  match this with
  | TextNode _ _ _ => Text.isEmpty this
  | ElementNode _ _ _ _ children =>
      if Z.of_nat (length children) =? 0 then true
      else JSArray.every isEmpty children
  end.

(** [contains(...keys)]: the loop returns [true] at the first child
    whose key is listed or which is an Element containing a listed
    key. *)
Fixpoint contains (keys : list NodeKey) (this : Node) : bool :=
  if Z.of_nat (length keys) =? 0 then false
  else
    match this with
    | TextNode _ _ _ => false
    | ElementNode _ _ _ _ children =>
        JSArray.some
          (λ child, JSArray.includes keys (getKey child)
                    || (isElement child && contains keys child))
          children
    end.

(** [matches(callback)]. *)
Fixpoint matches (callback : Node → bool) (this : Node) : list Node :=
  match this with
  | TextNode _ _ _ => []
  | ElementNode _ _ _ _ children =>
      flat_map
        (λ child, (if callback child then [child] else [])
                  ++ (if isElement child then matches callback child else []))
        children
  end.

Definition indexOf (key : NodeKey) (this : Node) : Z :=
  JSArray.findIndex (λ child, bool_decide (getKey child = key))
    (getChildren this).

(** [compare(node)]; [child.compare(...)] on a text leaf is
    [Text.compare]. *)
Fixpoint compare (this node : Node) {struct this} : bool :=
  match this with
  | TextNode _ _ _ => Text.compare this node
  | ElementNode _ _ _ style this_children =>
      if negb (isElement node) then false
      else if negb (NodeBase.compare this node) then false
      else if negb (isEqual style (getStyle node)) then false
      else
        let children := getChildren node in
        if negb (Z.of_nat (length children) =? Z.of_nat (length this_children))
        then false
        else
          JSArray.every
            (λ child,
               let key := getKey child in
               let index :=
                 JSArray.findIndex (λ c, bool_decide (getKey c = key))
                   children in
               if index =? -1 then false
               else
                 match JSArray.at_index children index with
                 | Some c => compare child c
                 | None => false
                 end)
            this_children
  end.

(** [clone(deep = false, copyKey = true)]: the new Element and the key
    source after the call. *)
Definition clone (deep copyKey : bool) (this : Node) (ks : KeySource)
  : Node * KeySource :=
  let json := toJSON deep this in
  let newJson := assign_key (if copyKey then opt_key json else None) json in
  create newJson ks.
End Element.

(** ** Notions used to state the properties *)

(** What [Element.adopt] builds from a live node: the node rebuilt from
    its serialized form under a new parent (see [adopt_rebuilt]).  Styles
    are not serialized, and an Element that carries the text tag is rebuilt
    as a leaf. *)
Fixpoint rebuilt (parent : option NodeKey) (n : Node) : Node :=
  match n with
  | TextNode key _ text => TextNode key parent text
  | ElementNode key _ type _ children =>
      if bool_decide (type = DATA_TYPE_TEXT) then TextNode key parent EmptyString
      else ElementNode key parent type ∅ (map (rebuilt (Some key)) children)
  end.

(** [descendant E d]: [d] is a direct or transitive child of [E]. *)
Inductive descendant : Node → Node → Prop :=
| descendant_child E c :
    c ∈ Element.getChildren E → descendant E c
| descendant_deeper E c d :
    c ∈ Element.getChildren E → descendant c d → descendant E d.

(** The first node of a sequence that carries the given key. *)
Definition firstWithKey (key : NodeKey) (l : list Node) : option Node :=
  List.find (λ c, bool_decide (NodeBase.getKey c = key)) l.

(** The verdict on one child: the first child of the other side carrying
    its key, compared with it. *)
Definition matched (children : list Node) (child : Node) : bool :=
  match firstWithKey (NodeBase.getKey child) children with
  | Some c => Element.compare child c
  | None => false
  end.

(** No two children of the same Element share a key, at any depth. *)
Fixpoint distinct_sibling_keys (n : Node) : bool :=
  match n with
  | TextNode _ _ _ => true
  | ElementNode _ _ _ _ children =>
      bool_decide (NoDup (map NodeBase.getKey children))
      && forallb distinct_sibling_keys children
  end.

(** Every Element of the tree has the empty style map. *)
Fixpoint styleless (n : Node) : bool :=
  match n with
  | TextNode _ _ _ => true
  | ElementNode _ _ _ style children =>
      bool_decide (style = ∅) && forallb styleless children
  end.

(** A node as [Element.createChildNode] builds them: an Element child
    never carries the text tag, at any depth. *)
Fixpoint dispatched (n : Node) : bool :=
  match n with
  | TextNode _ _ _ => true
  | ElementNode _ _ type _ children =>
      negb (bool_decide (type = DATA_TYPE_TEXT)) && forallb dispatched children
  end.

(** The children of an Element are nodes built by the polymorphic
    constructor. *)
Definition dispatched_children (E : Node) : bool :=
  forallb dispatched (Element.getChildren E).

(** [clamp size offset]: [offset] brought into [[0, size]]. *)
Definition clamp (size offset : Z) : Z := Z.max 0 (Z.min offset size).

(** Parent links: [linked_under owner n] holds when [n] names [owner] as
    its parent and, below [n], every stored child names the Element that
    holds it. *)
Fixpoint linked_under (owner : NodeKey) (n : Node) : bool :=
  bool_decide (NodeBase.getParentKey n = Some owner)
  && match n with
     | TextNode _ _ _ => true
     | ElementNode key _ _ _ children => forallb (linked_under key) children
     end.

(** Every child stored under [E], at any depth, names its owner. *)
Definition well_linked (E : Node) : bool :=
  forallb (linked_under (NodeBase.getKey E)) (Element.getChildren E).

(** The direct and transitive children of a node in document order: each
    child, followed by what lies below it, before its next sibling. *)
Fixpoint descendants (n : Node) : list Node :=
  match n with
  | TextNode _ _ _ => []
  | ElementNode _ _ _ _ children => flat_map (λ c, c :: descendants c) children
  end.

(** A description that gives a key for itself and for every description
    below it. *)
Fixpoint keyed (o : NodeOptions) : bool :=
  match opt_key o with Some _ => true | None => false end
  && match opt_children o with
     | Some descriptions => forallb keyed descriptions
     | None => true
     end.

(** A tree with every style map emptied. *)
Fixpoint unstyled (n : Node) : Node :=
  match n with
  | TextNode _ _ _ => n
  | ElementNode key parent type _ children =>
      ElementNode key parent type ∅ (map unstyled children)
  end.

(** ** Sample objects *)

Module Samples.
Import NodeBase Element.

(** A key source handing out ["k0"], ["k1"], ... *)
Definition keys : KeySource :=
  λ n, String.append "k" (String (Ascii.ascii_of_nat (48 + n)) EmptyString).

Definition textOptions (key text : string) : NodeOptions :=
  mkNodeOptions (Some key) (Some DATA_TYPE_TEXT) None (Some text) None None None.

Definition elementOptions (key : string) (children : list NodeOptions)
  : NodeOptions :=
  mkNodeOptions (Some key) None None None None None (Some children).

(** An Element ["e"] over the text leaves A, B, C of the scenarios. *)
Definition abc : Node :=
  (new (elementOptions "e"
          [textOptions "a" "A"; textOptions "b" "B"; textOptions "c" "C"])
       keys).1.

(** An Element ["e"] over the text leaves A and C. *)
Definition ac : Node :=
  (new (elementOptions "e" [textOptions "a" "A"; textOptions "c" "C"]) keys).1.

(** A detached text leaf X. *)
Definition x : Node := (createChildNode (textOptions "x" "X") keys).1.

(** An Element whose only child is an Element without children. *)
Definition nested_empty : Node :=
  (new (elementOptions "e" [elementOptions "inner" []]) keys).1.

(** Two Elements ["e"] whose children share the key ["a"]. *)
Definition twins_yy : Node :=
  (new (elementOptions "e" [textOptions "a" "y"; textOptions "a" "y"]) keys).1.
Definition twins_xy : Node :=
  (new (elementOptions "e" [textOptions "a" "x"; textOptions "a" "y"]) keys).1.

(** The same two leaves in the two physical orders. *)
Definition ab : Node :=
  (new (elementOptions "e" [textOptions "a" "A"; textOptions "b" "B"]) keys).1.
Definition ba : Node :=
  (new (elementOptions "e" [textOptions "b" "B"; textOptions "a" "A"]) keys).1.

(** An Element without children whose style was set. *)
Definition styled : Node :=
  setStyle {[ "color" := StyleString "red" ]} (new (elementOptions "e" []) keys).1.
(** An Element holding an Element that holds two text leaves. *)
Definition two_level : Node :=
  (new (elementOptions "root"
          [elementOptions "p" [textOptions "t1" "one"; textOptions "t2" "two"]])
       keys).1.

(** Children that share the key ["a"], in the two orders. *)
Definition twins_yx : Node :=
  (new (elementOptions "e" [textOptions "a" "y"; textOptions "a" "x"]) keys).1.
End Samples.

(** * Properties *)

Import NodeBase Element.

(** ** Induction over trees of nodes *)

Lemma Node_tree_ind (P : Node → Prop) :
  (∀ key parent text, P (TextNode key parent text)) →
  (∀ key parent type style children,
      Forall P children → P (ElementNode key parent type style children)) →
  ∀ n, P n.
Proof.
  intros Hleaf Helem. fix IH 1.
  intros [key parent type style children | key parent text].
  - apply Helem. induction children as [|c cs IHcs]; constructor; auto.
  - apply Hleaf.
Qed.

(** ** Array primitives inside the valid range *)

Section ArrayFacts.
Context {A : Type}.
Implicit Types (l items : list A) (p : A → bool).

Lemma relIndex_in_range len i : 0 ≤ i ≤ len → JSArray.relIndex len i = i.
Proof.
  intros H. unfold JSArray.relIndex.
  destruct (Z.ltb_spec i 0); lia.
Qed.

Lemma relIndex_negative len i :
  i < 0 → JSArray.relIndex len i = Z.max (len + i) 0.
Proof. intros H. unfold JSArray.relIndex. destruct (Z.ltb_spec i 0); lia. Qed.

Lemma relIndex_large len i :
  0 ≤ len → len < i → JSArray.relIndex len i = len.
Proof. intros ? H. unfold JSArray.relIndex. destruct (Z.ltb_spec i 0); lia. Qed.

Lemma relIndex_bounds len i : 0 ≤ len → 0 ≤ JSArray.relIndex len i ≤ len.
Proof. intros ?. unfold JSArray.relIndex. destruct (Z.ltb_spec i 0); lia. Qed.

Lemma slice_prefix l i :
  0 ≤ i ≤ Z.of_nat (length l) → JSArray.slice 0 i l = take (Z.to_nat i) l.
Proof.
  intros H. unfold JSArray.slice.
  rewrite (relIndex_in_range _ 0), (relIndex_in_range _ i) by lia.
  simpl. by rewrite Z.sub_0_r.
Qed.

Lemma sliceFrom_suffix l i :
  0 ≤ i ≤ Z.of_nat (length l) → JSArray.sliceFrom i l = drop (Z.to_nat i) l.
Proof.
  intros H. unfold JSArray.sliceFrom, JSArray.slice.
  rewrite (relIndex_in_range _ i), (relIndex_in_range _ (Z.of_nat _)) by lia.
  apply take_ge. rewrite length_drop. lia.
Qed.

Lemma splice_insert_at l items i :
  (JSArray.splice i 0 items l).2
  = let k := Z.to_nat (JSArray.relIndex (Z.of_nat (length l)) i) in
    take k l ++ items ++ drop k l.
Proof.
  unfold JSArray.splice. simpl.
  pose proof (relIndex_bounds (Z.of_nat (length l)) i ltac:(lia)).
  rewrite Z.max_l by lia. rewrite Z.min_l by lia. by rewrite Z.add_0_r.
Qed.

(** [findIndex] either reports [-1] and nothing satisfies the callback,
    or reports the position of the first element that does. *)
Lemma findIndexFrom_spec p i l :
  (JSArray.findIndexFrom p i l = -1 ∧ Forall (λ a, p a = false) l)
  ∨ (∃ before c after,
        l = before ++ c :: after ∧ p c = true
        ∧ Forall (λ a, p a = false) before
        ∧ JSArray.findIndexFrom p i l = i + Z.of_nat (length before)).
Proof.
  revert i. induction l as [|a l IH]; intros i; simpl.
  - left. split; [done | constructor].
  - destruct (p a) eqn:Hpa.
    + right. exists [], a, l. simpl. repeat split; [done | constructor | lia].
    + destruct (IH (i + 1)) as [[Hnone Hall] | (before & c & after & -> & Hc & Hb & Hi)].
      * left. split; [done | by constructor].
      * right. exists (a :: before), c, after. simpl.
        repeat split; [done | by constructor | lia].
Qed.

Lemma findIndex_spec p l :
  (JSArray.findIndex p l = -1 ∧ Forall (λ a, p a = false) l)
  ∨ (∃ before c after,
        l = before ++ c :: after ∧ p c = true
        ∧ Forall (λ a, p a = false) before
        ∧ JSArray.findIndex p l = Z.of_nat (length before)).
Proof. apply (findIndexFrom_spec p 0 l). Qed.
End ArrayFacts.

(** ** Construction and serialization *)

Lemma mapKS_ext {A B : Type} (f g : A → KeySource → B * KeySource) l ks :
  (∀ a ks', f a ks' = g a ks') → mapKS f l ks = mapKS g l ks.
Proof.
  intros Hfg. revert ks. induction l as [|a l IH]; intros ks; simpl; [done|].
  rewrite Hfg. destruct (g a ks) as [y ks1]. by rewrite IH.
Qed.

(** Mapping a constructor that draws no key. *)
Lemma mapKS_pure {A B C : Type} (f : A → KeySource → B * KeySource)
    (h : C → A) (g : C → B) l ks :
  Forall (λ c, ∀ ks', f (h c) ks' = (g c, ks')) l →
  mapKS f (map h l) ks = (map g l, ks).
Proof.
  induction 1 as [|a l Ha _ IH]; simpl; [done|].
  by rewrite Ha, IH.
Qed.

(** The constructor reads the parent from its argument only. *)
Lemma newAt_assign_parent p q o ks : newAt p (assign_parent q o) ks = newAt p o ks.
Proof. by destruct o. Qed.

(** The recursive call of the constructor is the source's
    [child.parent = this.getKey(); Element.createChildNode(child)]. *)
Lemma dispatch_createChildNode p child ks :
  (if isElementObject child then newAt p child ks else Text.new p child ks)
  = createChildNode (assign_parent p child) ks.
Proof.
  unfold createChildNode, Node_create, create, new.
  replace (isElementObject (assign_parent p child)) with (isElementObject child)
    by by destruct child.
  destruct (isElementObject child); [|by destruct child].
  by rewrite newAt_assign_parent.
Qed.

(** The constructor, in the shape of the source. *)
Lemma new_unfold options ks :
  new options ks
  = let '(key, ks1) := assignKey options ks in
    let type := default DATA_TYPE_ELEMENT (opt_type options) in
    let '(children, ks2) :=
      mapKS (λ child ks', createChildNode (assign_parent (Some key) child) ks')
        (default [] (opt_children options)) ks1 in
    (ElementNode key (opt_parent options) type ∅ children, ks2).
Proof.
  unfold new. destruct options as [k t p tx st sz cs]; simpl.
  destruct (assignKey _ ks) as [key ks1].
  destruct cs as [descriptions|]; simpl; [|done].
  by rewrite (mapKS_ext _ _ _ _ (dispatch_createChildNode (Some key))).
Qed.

(** Whatever the description says, a freshly constructed Element has the
    empty style map. *)
Lemma new_style options ks : getStyle (new options ks).1 = ∅.
Proof.
  rewrite new_unfold. destruct (assignKey options ks) as [key ks1].
  simpl. by destruct (mapKS _ _ ks1).
Qed.

Lemma toJSON_key b n : opt_key (toJSON b n) = Some (getKey n).
Proof. by destruct n. Qed.

Lemma toJSON_parent b n : opt_parent (toJSON b n) = getParentKey n.
Proof. by destruct n. Qed.

Lemma toJSON_type b n : opt_type (toJSON b n) = Some (getType n).
Proof. by destruct n. Qed.

(** Rebuilding a node from its own serialized form draws no key and gives
    [rebuilt]. *)
Lemma createChildNode_toJSON n p ks :
  createChildNode (assign_parent p (toJSON true n)) ks = (rebuilt p n, ks).
Proof.
  revert p ks. induction n as [key parent text | key parent type style children IH]
    using Node_tree_ind; intros p ks.
  - done.
  - unfold createChildNode, Node_create, create. rewrite new_unfold.
    unfold isElementObject. simpl.
    destruct (decide (type = DATA_TYPE_TEXT)) as [->|Hne].
    + done.
    + rewrite (bool_decide_eq_false_2 (Some type = Some DATA_TYPE_TEXT)) by congruence.
      rewrite (bool_decide_eq_false_2 (type = DATA_TYPE_TEXT)) by done. simpl.
      rewrite (mapKS_pure _ (toJSON true) (rebuilt (Some key))); [done|].
      eapply Forall_impl; [apply IH|]. intros c Hc ks'. apply Hc.
Qed.

Lemma adopt_rebuilt this child ks :
  adopt this child ks = (rebuilt (Some (getKey this)) child, ks).
Proof. apply createChildNode_toJSON. Qed.

Lemma getKey_rebuilt p n : getKey (rebuilt p n) = getKey n.
Proof. destruct n; simpl; [by case_bool_decide | done]. Qed.

Lemma getParentKey_rebuilt p n : getParentKey (rebuilt p n) = p.
Proof. destruct n; simpl; [by case_bool_decide | done]. Qed.

(** [Element.create] on the serialized form of an Element: same key,
    parent and type, empty style, children rebuilt. *)
Lemma create_toJSON_true key parent type style children ks :
  create (toJSON true (ElementNode key parent type style children)) ks
  = (ElementNode key parent type ∅ (map (rebuilt (Some key)) children), ks).
Proof.
  unfold create. rewrite new_unfold. simpl.
  rewrite (mapKS_pure _ (toJSON true) (rebuilt (Some key))); [done|].
  apply Forall_forall. intros c _ ks'. apply createChildNode_toJSON.
Qed.

Lemma create_toJSON_false key parent type style children ks :
  create (toJSON false (ElementNode key parent type style children)) ks
  = (ElementNode key parent type ∅ [], ks).
Proof. done. Qed.

Lemma create_toJSON_false_keyless key parent type style children ks :
  create (assign_key None
            (toJSON false (ElementNode key parent type style children))) ks
  = (ElementNode (ks 0%nat) parent type ∅ [], λ n, ks (S n)).
Proof. done. Qed.

(** Appending a run of children, one [appendChild] each. *)
Lemma forEach_appendChild l key parent type style children ks :
  forEachKS appendChild l (ElementNode key parent type style children) ks
  = (ElementNode key parent type style
       (children ++ map (rebuilt (Some key)) l), ks).
Proof.
  revert children. induction l as [|c l IH]; intros children; simpl.
  - by rewrite app_nil_r.
  - unfold appendChild at 1. rewrite adopt_rebuilt. simpl.
    rewrite IH. unfold JSArray.push. by rewrite <- app_assoc.
Qed.

(** ** split *)

Lemma split_clamps size offset :
  0 ≤ size →
  (let o := if offset <? 0 then 0 else offset in if o >? size then size else o)
  = clamp size offset.
Proof.
  intros Hsize. unfold clamp. simpl.
  destruct (Z.ltb_spec offset 0).
  - destruct (Z.gtb_spec 0 size); lia.
  - destruct (Z.gtb_spec offset size); lia.
Qed.

Lemma clamp_bounds size offset : 0 ≤ size → 0 ≤ clamp size offset ≤ size.
Proof. unfold clamp. lia. Qed.

(** What [split] returns and leaves behind, for an Element receiver. *)
Lemma split_unfold key parent type style children offset ks :
  split offset (ElementNode key parent type style children) ks
  = let k := Z.to_nat (clamp (Z.of_nat (length children)) offset) in
    ((ElementNode key parent type ∅
        (map (rebuilt (Some key)) (take k children)),
      ElementNode (ks 0%nat) parent type ∅
        (map (rebuilt (Some (ks 0%nat))) (drop k children))),
     ElementNode key parent type style children,
     λ n, ks (S n)).
Proof.
  unfold split, getChildrenSize.
  change (getChildren (ElementNode key parent type style children)) with children.
  pose proof (split_clamps (Z.of_nat (length children)) offset ltac:(lia)) as Hc.
  simpl in Hc. rewrite Hc.
  pose proof (clamp_bounds (Z.of_nat (length children)) offset ltac:(lia)) as Hb.
  rewrite slice_prefix, sliceFrom_suffix by done.
  rewrite create_toJSON_false, forEach_appendChild.
  rewrite create_toJSON_false_keyless, forEach_appendChild.
  done.
Qed.

(** C1.  For every Element E and every offset in [[0, E.getChildrenSize()]],
    [split(offset)] returns a pair [[left, right]] whose children counts add
    up to E's and whose children keys, left then right, are E's children
    keys. *)
Theorem split_partitions_children (E : Node) (offset : Z) (ks : KeySource) :
  isElement E = true →
  0 ≤ offset ≤ getChildrenSize E →
  let '(cloneLeft, cloneRight, _, _) := split offset E ks in
  getChildrenSize cloneLeft + getChildrenSize cloneRight = getChildrenSize E
  ∧ getChildrenKeys cloneLeft ++ getChildrenKeys cloneRight = getChildrenKeys E.
Proof.
  destruct E as [key parent type style children | ]; [intros _ | done].
  unfold getChildrenSize at 1. simpl. intros Hoffset.
  rewrite split_unfold. simpl.
  unfold getChildrenSize, getChildrenKeys. simpl.
  set (k := Z.to_nat (clamp (Z.of_nat (length children)) offset)).
  split.
  - rewrite !length_map, <- Nat2Z.inj_add, <- length_app.
    by rewrite take_drop.
  - rewrite !map_map.
    rewrite (map_ext _ getKey) by (intros; apply getKey_rebuilt).
    rewrite (map_ext (λ x, getKey (rebuilt _ x)) getKey)
      by (intros; apply getKey_rebuilt).
    by rewrite <- map_app, take_drop.
Qed.

Lemma split_partitions_children_witness :
  let '(cloneLeft, cloneRight, _, _) := split 1 Samples.abc Samples.keys in
  getChildrenSize cloneLeft + getChildrenSize cloneRight = getChildrenSize Samples.abc
  ∧ getChildrenKeys cloneLeft ++ getChildrenKeys cloneRight = getChildrenKeys Samples.abc.
Proof.
  apply (split_partitions_children Samples.abc 1 Samples.keys).
  - reflexivity.
  - vm_compute. split; discriminate.
Defined.

(** C2.  For every Element E and every offset, [split(offset)] leaves E as
    it was; [cloneLeft] has E's key; [cloneRight] has the key the key source
    generates, which differs from E's key as the key source promises; every
    child stored in a clone has that clone's key as parentKey; and an
    out-of-range offset acts as the nearest bound of [[0, size]]. *)
Theorem split_clones (E : Node) (offset : Z) (ks : KeySource) :
  isElement E = true →
  let '(cloneLeft, cloneRight, E_after, _) := split offset E ks in
  E_after = E
  ∧ getKey cloneLeft = getKey E
  ∧ getKey cloneRight = (generateKey ks).1
  ∧ ((generateKey ks).1 ≠ getKey E → getKey cloneRight ≠ getKey E)
  ∧ Forall (λ c, getParentKey c = Some (getKey cloneLeft)) (getChildren cloneLeft)
  ∧ Forall (λ c, getParentKey c = Some (getKey cloneRight)) (getChildren cloneRight)
  ∧ split offset E ks = split (clamp (getChildrenSize E) offset) E ks
  ∧ (offset < 0 → split offset E ks = split 0 E ks)
  ∧ (getChildrenSize E < offset →
     split offset E ks = split (getChildrenSize E) E ks).
Proof.
  destruct E as [key parent type style children | ]; [intros _ | done].
  rewrite split_unfold. simpl.
  unfold getChildrenSize. simpl.
  set (size := Z.of_nat (length children)).
  assert (0 ≤ size) as Hsize by (unfold size; lia).
  repeat split; try done.
  - apply Forall_map, Forall_forall. intros c _. apply getParentKey_rebuilt.
  - apply Forall_map, Forall_forall. intros c _. apply getParentKey_rebuilt.
  - rewrite split_unfold. simpl. fold size.
    replace (clamp size (clamp size offset)) with (clamp size offset)
      by (unfold clamp; lia).
    done.
  - intros Hneg. rewrite split_unfold. simpl. fold size.
    replace (clamp size offset) with (clamp size 0) by (unfold clamp; lia).
    done.
  - intros Hbig. rewrite split_unfold. simpl. fold size.
    replace (clamp size offset) with (clamp size size) by (unfold clamp; lia).
    done.
Qed.

Lemma split_clones_witness :
  let '(cloneLeft, cloneRight, E_after, _) := split (-5) Samples.abc Samples.keys in
  E_after = Samples.abc
  ∧ getKey cloneLeft = getKey Samples.abc
  ∧ getKey cloneRight = (generateKey Samples.keys).1
  ∧ ((generateKey Samples.keys).1 ≠ getKey Samples.abc →
     getKey cloneRight ≠ getKey Samples.abc)
  ∧ Forall (λ c, getParentKey c = Some (getKey cloneLeft)) (getChildren cloneLeft)
  ∧ Forall (λ c, getParentKey c = Some (getKey cloneRight)) (getChildren cloneRight)
  ∧ split (-5) Samples.abc Samples.keys
    = split (clamp (getChildrenSize Samples.abc) (-5)) Samples.abc Samples.keys
  ∧ (-5 < 0 → split (-5) Samples.abc Samples.keys = split 0 Samples.abc Samples.keys)
  ∧ (getChildrenSize Samples.abc < -5 →
     split (-5) Samples.abc Samples.keys
     = split (getChildrenSize Samples.abc) Samples.abc Samples.keys).
Proof.
  apply (split_clones Samples.abc (-5) Samples.keys). reflexivity.
Defined.

(** ** removeChild *)

Lemma splice_delete_one {A : Type} (before after : list A) (c : A) :
  JSArray.splice (Z.of_nat (length before)) 1 [] (before ++ c :: after)
  = ([c], before ++ after).
Proof.
  unfold JSArray.splice.
  rewrite relIndex_in_range by (rewrite length_app; simpl; lia).
  rewrite length_app. simpl length.
  replace (Z.min (Z.max 1 0) _) with 1 by lia.
  rewrite Nat2Z.id.
  replace (Z.to_nat (Z.of_nat (length before) + 1)) with (length before + 1)%nat by lia.
  rewrite drop_app_length, take_app_length.
  f_equal. simpl. f_equal.
  replace (length before + 1)%nat with (length (before ++ [c]))
    by (rewrite length_app; simpl; lia).
  rewrite (cons_middle c before after), app_assoc. by rewrite drop_app_length.
Qed.

Lemma no_key_match key (l : list Node) :
  Forall (λ c, bool_decide (getKey c = key) = false) l ↔ key ∉ map getKey l.
Proof.
  rewrite Forall_forall, list_elem_of_fmap. split.
  - intros Hall (c & -> & Hc). specialize (Hall c Hc).
    by apply bool_decide_eq_false in Hall.
  - intros Hnot c Hc. apply bool_decide_eq_false. intros <-. apply Hnot. eauto.
Qed.

(** C5.  [removeChild(key)]: when no child has the key the receiver is left
    as it was; otherwise the first child [c] carrying the key is taken out
    and the children before and after it stay, in their order.  Nothing but
    the children sequence of the receiver is written: what the splice takes
    out is [c] as it was stored, so a child that named the Element as its
    parent still does once removed. *)
Theorem removeChild_spec (E : Node) (key : NodeKey) :
  isElement E = true →
  (key ∉ getChildrenKeys E → removeChild key E = E)
  ∧ (key ∈ getChildrenKeys E →
     ∃ before c after,
       getChildren E = before ++ c :: after
       ∧ getKey c = key
       ∧ (key ∉ map getKey before)
       ∧ removeChild key E = setChildren (before ++ after) E
       ∧ fst (JSArray.splice (indexOf key E) 1 [] (getChildren E)) = [c]
       ∧ (Forall (λ child, getParentKey child = Some (getKey E)) (getChildren E) →
          Forall (λ r, getParentKey r = Some (getKey E))
            (fst (JSArray.splice (indexOf key E) 1 [] (getChildren E))))).
Proof.
  destruct E as [k parent type style children | ]; [intros _ | done].
  unfold removeChild, indexOf, getChildrenKeys. cbn [getChildren setChildren].
  destruct (findIndex_spec (λ child, bool_decide (getKey child = key)) children)
    as [[Hidx Hall] | (before & c & after & Hl & Hc & Hbefore & Hidx)].
  - rewrite Hidx. split; [done|].
    intros Hin. by apply no_key_match in Hall.
  - rewrite Hidx. apply bool_decide_eq_true in Hc.
    destruct (Z.ltb_spec (Z.of_nat (length before)) 0); [lia|].
    split.
    + intros Hnot. exfalso. apply Hnot. rewrite Hl, map_app. simpl.
      apply elem_of_app. right. rewrite Hc. constructor.
    + intros _. exists before, c, after. rewrite Hl, splice_delete_one. simpl.
      repeat split; try done.
      * by apply no_key_match.
      * intros Hlinked. apply Forall_app in Hlinked as [_ Hlinked].
        apply Forall_cons in Hlinked as [Hparent _]. by constructor.
Qed.

Lemma removeChild_spec_witness :
  ("b" ∉ getChildrenKeys Samples.abc → removeChild "b" Samples.abc = Samples.abc)
  ∧ ("b" ∈ getChildrenKeys Samples.abc →
     ∃ before c after,
       getChildren Samples.abc = before ++ c :: after
       ∧ getKey c = "b"
       ∧ ("b" ∉ map getKey before)
       ∧ removeChild "b" Samples.abc = setChildren (before ++ after) Samples.abc
       ∧ fst (JSArray.splice (indexOf "b" Samples.abc) 1 []
                (getChildren Samples.abc)) = [c]
       ∧ (Forall (λ child, getParentKey child = Some (getKey Samples.abc))
            (getChildren Samples.abc) →
          Forall (λ r, getParentKey r = Some (getKey Samples.abc))
            (fst (JSArray.splice (indexOf "b" Samples.abc) 1 []
                    (getChildren Samples.abc))))).
Proof. apply (removeChild_spec Samples.abc "b"). reflexivity. Defined.

(** The scenarios of C5: removing ["b"] from [A, B, C] leaves [A, C];
    removing the absent ["z"] changes nothing. *)
Example removeChild_scenarios :
  getChildrenKeys (removeChild "b" Samples.abc) = ["a"; "c"]
  ∧ removeChild "z" Samples.abc = Samples.abc.
Proof. split; reflexivity. Qed.

(** ** contains *)

Lemma includes_elem_of keys k : JSArray.includes keys k = true ↔ k ∈ keys.
Proof.
  unfold JSArray.includes. rewrite existsb_exists. split.
  - intros (k' & Hin & Hk). apply bool_decide_eq_true in Hk. subst.
    by apply list_elem_of_In.
  - intros Hin. exists k. split; [by apply list_elem_of_In|].
    by apply bool_decide_eq_true.
Qed.

Lemma contains_no_keys n : contains [] n = false.
Proof. by destruct n. Qed.

Lemma contains_descendant keys n :
  keys ≠ [] →
  (contains keys n = true ↔ ∃ d, descendant n d ∧ getKey d ∈ keys).
Proof.
  intros Hkeys.
  assert ((Z.of_nat (length keys) =? 0) = false) as Hlen.
  { destruct keys; [done|]. simpl length. apply Z.eqb_neq. lia. }
  induction n as [key parent text | key parent type style children IH]
    using Node_tree_ind.
  - unfold contains. rewrite Hlen. split; [done|].
    intros (d & Hd & _). inversion Hd as [? ? Hin | ? ? ? Hin _]; subst;
      simpl in Hin; by apply elem_of_nil in Hin.
  - cbn [contains]. rewrite Hlen. unfold JSArray.some.
    rewrite existsb_exists. split.
    + intros (c & Hin & Hc). apply list_elem_of_In in Hin.
      apply orb_true_iff in Hc as [Hc | Hc].
      * exists c. split; [by constructor | by apply includes_elem_of].
      * apply andb_true_iff in Hc as [_ Hc].
        rewrite Forall_forall in IH. apply (IH c Hin) in Hc as (d & Hd & Hk).
        exists d. split; [|done]. by eapply descendant_deeper.
    + intros (d & Hd & Hk).
      inversion Hd as [? ? Hin | ? c ? Hin Hcd]; subst; simpl in Hin.
      * exists d. split; [by apply list_elem_of_In|].
        apply orb_true_iff. left. by apply includes_elem_of.
      * exists c. split; [by apply list_elem_of_In|].
        apply orb_true_iff. right. apply andb_true_iff.
        rewrite Forall_forall in IH.
        destruct c as [ck cp ct cs cc | ck cp ctx].
        -- split; [done|]. apply (IH _ Hin). by exists d.
        -- inversion Hcd as [? ? Hin' | ? ? ? Hin' _]; subst;
             simpl in Hin'; by apply elem_of_nil in Hin'.
Qed.

(** C6.  For every Element E, [contains(...keys)] is false for the empty
    key set, and otherwise true exactly when some direct or transitive child
    of E has its key among the given keys. *)
Theorem contains_spec (E : Node) (keys : list NodeKey) :
  isElement E = true →
  (keys = [] → contains keys E = false)
  ∧ (keys ≠ [] →
     (contains keys E = true ↔ ∃ d, descendant E d ∧ getKey d ∈ keys)).
Proof.
  intros _. split.
  - intros ->. apply contains_no_keys.
  - apply contains_descendant.
Qed.

Lemma contains_spec_witness :
  (["c"; "zz"] = [] → contains ["c"; "zz"] Samples.abc = false)
  ∧ (["c"; "zz"] ≠ [] →
     (contains ["c"; "zz"] Samples.abc = true
      ↔ ∃ d, descendant Samples.abc d ∧ getKey d ∈ ["c"; "zz"])).
Proof. apply (contains_spec Samples.abc ["c"; "zz"]). reflexivity. Defined.

(** ** isEmpty *)

(** C8.  [isEmpty()] is recursive: an Element is empty exactly when it has
    no children or every one of its children is empty in turn; an Element
    with children can therefore be empty. *)
Theorem isEmpty_recursive :
  (∀ E, isElement E = true →
        (isEmpty E = true
         ↔ getChildrenSize E = 0
           ∨ Forall (λ child, isEmpty child = true) (getChildren E)))
  ∧ (∃ E, isElement E = true ∧ getChildrenSize E ≠ 0 ∧ isEmpty E = true).
Proof.
  split.
  - intros [key parent type style children | ]; [intros _ | done].
    unfold getChildrenSize. cbn [isEmpty getChildren].
    destruct (Z.eqb_spec (Z.of_nat (length children)) 0) as [Hz | Hnz].
    + split; [by left | done].
    + unfold JSArray.every. rewrite forallb_forall, Forall_forall.
      setoid_rewrite <- list_elem_of_In. split; [by right|].
      by intros [?|?].
  - exists Samples.nested_empty. by vm_compute.
Qed.

(** ** toJSON *)

(** C9.  For every Element E, [toJSON(false)] has the empty list as
    [children] while [size] is E's child count, so the two can disagree;
    [toJSON(true)] has the serialized children, each by its own
    [toJSON()]. *)
Theorem toJSON_children_and_size :
  (∀ E, isElement E = true →
        opt_children (toJSON false E) = Some []
        ∧ opt_size (toJSON false E) = Some (getChildrenSize E)
        ∧ opt_children (toJSON true E) = Some (map (toJSON true) (getChildren E))
        ∧ opt_size (toJSON true E) = Some (getChildrenSize E))
  ∧ (∃ E, isElement E = true
          ∧ (Z.of_nat ∘ length) <$> opt_children (toJSON false E)
            ≠ opt_size (toJSON false E)).
Proof.
  split.
  - by intros [key parent type style children | ].
  - exists Samples.abc. by vm_compute.
Qed.

(** ** insert *)

Lemma mapKS_adopt this items ks :
  mapKS (λ c ks', adopt this c ks') items ks
  = (map (λ c, (adopt this c ks).1) items, ks).
Proof.
  rewrite <- (map_id items) at 1.
  apply (mapKS_pure _ id (λ c, (adopt this c ks).1)).
  apply Forall_forall. intros c _ ks'. unfold id. by rewrite !adopt_rebuilt.
Qed.

(** What [insert] leaves behind, for an Element receiver. *)
Lemma insert_unfold key parent type style children index items ks :
  let E := ElementNode key parent type style children in
  insert index items E ks
  = let k := Z.to_nat (JSArray.relIndex (Z.of_nat (length children)) index) in
    (ElementNode key parent type style
       (take k children ++ map (λ c, (adopt E c ks).1) items ++ drop k children),
     ks).
Proof.
  intros E. unfold insert. rewrite mapKS_adopt.
  change (getChildren E) with children. by rewrite splice_insert_at.
Qed.

Lemma adopted_keys this items ks :
  map getKey (map (λ c, (adopt this c ks).1) items) = map getKey items.
Proof.
  rewrite map_map. apply map_ext. intros c.
  rewrite adopt_rebuilt. apply getKey_rebuilt.
Qed.

Lemma adopted_parents this items ks :
  Forall (λ c, getParentKey c = Some (getKey this))
    (map (λ c, (adopt this c ks).1) items).
Proof.
  apply Forall_map, Forall_forall. intros c _.
  rewrite adopt_rebuilt. apply getParentKey_rebuilt.
Qed.

(** C7.  [insert(offset, ...children)] puts freshly reconstructed copies of
    the given children at the given position: the children before and
    after the position keep their order, the copies come in the order
    given, carry the keys of the children given and have the Element's key
    as parentKey. *)
Theorem insert_in_place (E : Node) (offset : Z) (items : list Node)
    (ks : KeySource) :
  isElement E = true →
  0 ≤ offset ≤ getChildrenSize E →
  let '(E_after, _) := insert offset items E ks in
  let copies := map (λ c, (adopt E c ks).1) items in
  getChildren E_after
  = take (Z.to_nat offset) (getChildren E) ++ copies
      ++ drop (Z.to_nat offset) (getChildren E)
  ∧ map getKey copies = map getKey items
  ∧ Forall (λ c, getParentKey c = Some (getKey E)) copies
  ∧ setChildren (getChildren E) E_after = E.
Proof.
  destruct E as [key parent type style children | ]; [intros _ | done].
  unfold getChildrenSize. cbn [getChildren]. intros Hoffset.
  rewrite insert_unfold. cbn zeta. cbn [getChildren setChildren].
  rewrite relIndex_in_range by done.
  repeat split.
  - apply adopted_keys.
  - apply adopted_parents.
Qed.

(** The scenario of C7: [insert(1, X)] on the children [A, C]. *)
Lemma insert_in_place_witness :
  let '(E_after, _) := insert 1 [Samples.x] Samples.ac Samples.keys in
  let copies := map (λ c, (adopt Samples.ac c Samples.keys).1) [Samples.x] in
  getChildren E_after
  = take (Z.to_nat 1) (getChildren Samples.ac) ++ copies
      ++ drop (Z.to_nat 1) (getChildren Samples.ac)
  ∧ map getKey copies = map getKey [Samples.x]
  ∧ Forall (λ c, getParentKey c = Some (getKey Samples.ac)) copies
  ∧ setChildren (getChildren Samples.ac) E_after = Samples.ac.
Proof.
  apply (insert_in_place Samples.ac 1 [Samples.x] Samples.keys).
  - reflexivity.
  - vm_compute. split; discriminate.
Defined.

Example insert_scenario :
  let E_after := (insert 1 [Samples.x] Samples.ac Samples.keys).1 in
  getChildrenKeys E_after = ["a"; "x"; "c"]
  ∧ getParentKey <$> getChildren E_after !! 1%nat = Some (Some (getKey Samples.ac)).
Proof. split; reflexivity. Qed.

(** C10.  [insert] follows the index rules of [Array.prototype.splice]: a
    negative offset counts from the end and is floored at 0, an offset
    beyond the child count appends; so [insert(-1, X)] on the children
    [A, B, C] gives [A, B, X, C]. *)
Theorem insert_out_of_range (E : Node) (offset : Z) (items : list Node)
    (ks : KeySource) :
  isElement E = true →
  (offset < 0 →
   insert offset items E ks
   = insert (Z.max (getChildrenSize E + offset) 0) items E ks)
  ∧ (getChildrenSize E < offset →
     getChildren (insert offset items E ks).1
     = getChildren E ++ map (λ c, (adopt E c ks).1) items)
  ∧ (∀ A B C X,
       getChildren E = [A; B; C] →
       getChildren (insert (-1) [X] E ks).1 = [A; B; (adopt E X ks).1; C])
  ∧ getChildrenKeys (insert (-1) [Samples.x] Samples.abc ks).1
    = ["a"; "b"; "x"; "c"].
Proof.
  destruct E as [key parent type style children | ]; [intros _ | done].
  unfold getChildrenSize. cbn [getChildren].
  set (size := Z.of_nat (length children)).
  assert (0 ≤ size) as Hsize by (unfold size; lia).
  repeat split.
  - intros Hneg. rewrite !insert_unfold. cbn zeta. fold size.
    rewrite (relIndex_negative size offset) by done.
    by rewrite (relIndex_in_range size (Z.max (size + offset) 0)) by lia.
  - intros Hbig. rewrite insert_unfold. cbn zeta. cbn [fst getChildren]. fold size.
    rewrite relIndex_large by done. unfold size. rewrite Nat2Z.id.
    by rewrite take_ge, drop_ge, app_nil_r by lia.
  - intros A B C X ->. by rewrite insert_unfold.
Qed.

Lemma insert_out_of_range_witness :
  (-1 < 0 →
   insert (-1) [Samples.x] Samples.abc Samples.keys
   = insert (Z.max (getChildrenSize Samples.abc + -1) 0) [Samples.x]
       Samples.abc Samples.keys)
  ∧ (getChildrenSize Samples.abc < -1 →
     getChildren (insert (-1) [Samples.x] Samples.abc Samples.keys).1
     = getChildren Samples.abc
         ++ map (λ c, (adopt Samples.abc c Samples.keys).1) [Samples.x])
  ∧ (∀ A B C X,
       getChildren Samples.abc = [A; B; C] →
       getChildren (insert (-1) [X] Samples.abc Samples.keys).1
       = [A; B; (adopt Samples.abc X Samples.keys).1; C])
  ∧ getChildrenKeys (insert (-1) [Samples.x] Samples.abc Samples.keys).1
    = ["a"; "b"; "x"; "c"].
Proof.
  apply (insert_out_of_range Samples.abc (-1) [Samples.x] Samples.keys).
  reflexivity.
Defined.

(** ** compare *)

Lemma firstWithKey_findIndex key (children : list Node) :
  (JSArray.findIndex (λ c, bool_decide (getKey c = key)) children = -1
   ∧ firstWithKey key children = None)
  ∨ (∃ c, firstWithKey key children = Some c
          ∧ JSArray.findIndex (λ c, bool_decide (getKey c = key)) children ≠ -1
          ∧ JSArray.at_index children
              (JSArray.findIndex (λ c, bool_decide (getKey c = key)) children)
            = Some c).
Proof.
  unfold firstWithKey.
  destruct (findIndex_spec (λ c, bool_decide (getKey c = key)) children)
    as [[Hidx Hall] | (before & c & after & -> & Hc & Hbefore & Hidx)].
  - left. split; [done|]. clear Hidx.
    induction Hall as [|a l Ha _ IH]; simpl; [done|].
    by rewrite Ha.
  - right. exists c. rewrite Hidx. clear Hidx. repeat split.
    + induction Hbefore as [|a l Ha _ IH]; simpl; [by rewrite Hc|].
      by rewrite Ha.
    + lia.
    + unfold JSArray.at_index.
      destruct (Z.ltb_spec (Z.of_nat (length before)) 0); [lia|].
      rewrite Nat2Z.id. by rewrite list_lookup_middle.
Qed.

Lemma forallb_pointwise {A : Type} (f g : A → bool) (l : list A) :
  (∀ a, f a = g a) → forallb f l = forallb g l.
Proof. intros Hfg. induction l as [|a l IH]; simpl; [done|]. by rewrite Hfg, IH. Qed.

Lemma compare_every_matched (children this_children : list Node) :
  JSArray.every
    (λ child,
       let key := getKey child in
       let index :=
         JSArray.findIndex (λ c, bool_decide (getKey c = key)) children in
       if index =? -1 then false
       else
         match JSArray.at_index children index with
         | Some c => compare child c
         | None => false
         end)
    this_children
  = forallb (matched children) this_children.
Proof.
  unfold JSArray.every. apply forallb_pointwise. intros child. cbn zeta. unfold matched.
  destruct (firstWithKey_findIndex (getKey child) children)
    as [[-> ->] | (c & -> & Hne & ->)]; [done|].
  by destruct (Z.eqb_spec (JSArray.findIndex
    (λ c0, bool_decide (getKey c0 = getKey child)) children) (-1)).
Qed.

Lemma compare_unfold key parent type style children node :
  compare (ElementNode key parent type style children) node
  = isElement node
    && NodeBase.compare (ElementNode key parent type style children) node
    && isEqual style (getStyle node)
    && (Z.of_nat (length (getChildren node)) =? Z.of_nat (length children))
    && forallb (matched (getChildren node)) children.
Proof.
  cbn [compare]. rewrite compare_every_matched.
  destruct (isElement node); [|done].
  destruct (NodeBase.compare _ node); [|done].
  destruct (isEqual style (getStyle node)); [|done].
  by destruct (_ =? _).
Qed.

Lemma firstWithKey_Some key (l : list Node) c :
  firstWithKey key l = Some c → c ∈ l ∧ getKey c = key.
Proof.
  intros Hfind. apply find_some in Hfind as [Hin Hkey].
  split; [by apply list_elem_of_In | by apply bool_decide_eq_true in Hkey].
Qed.

Lemma firstWithKey_None key (l : list Node) :
  firstWithKey key l = None → key ∉ map getKey l.
Proof.
  intros Hfind (c & -> & Hin)%list_elem_of_fmap.
  apply list_elem_of_In in Hin.
  pose proof (find_none _ _ Hfind c Hin) as Hc. simpl in Hc.
  by apply bool_decide_eq_false in Hc.
Qed.

(** With pairwise distinct keys, the first child carrying the key of a
    child is that child. *)
Lemma firstWithKey_NoDup (l : list Node) c :
  NoDup (map getKey l) → c ∈ l → firstWithKey (getKey c) l = Some c.
Proof.
  induction l as [|a l IH]; simpl; intros Hnd Hin.
  - by apply elem_of_nil in Hin.
  - apply NoDup_cons in Hnd as [Hnotin Hnd].
    apply elem_of_cons in Hin as [-> | Hin].
    + unfold firstWithKey. simpl. by rewrite bool_decide_eq_true_2.
    + unfold firstWithKey. simpl. rewrite bool_decide_eq_false_2; [by apply IH|].
      intros Heq. apply Hnotin. rewrite Heq. by apply list_elem_of_fmap_2.
Qed.

Lemma firstWithKey_Permutation key (l l' : list Node) :
  NoDup (map getKey l) → l' ≡ₚ l → firstWithKey key l' = firstWithKey key l.
Proof.
  intros Hnd Hperm.
  assert (NoDup (map getKey l')) as Hnd'.
  { eapply NoDup_Permutation_proper; [|exact Hnd]. by apply fmap_Permutation. }
  destruct (firstWithKey key l) as [c|] eqn:Hl.
  - apply firstWithKey_Some in Hl as [Hin <-].
    apply firstWithKey_NoDup; [done|]. by rewrite Hperm.
  - apply firstWithKey_None in Hl.
    destruct (firstWithKey key l') as [c'|] eqn:Hl'; [|done].
    apply firstWithKey_Some in Hl' as [Hin <-].
    exfalso. apply Hl. apply list_elem_of_fmap_2. by rewrite <- Hperm.
Qed.

Lemma forallb_Permutation {A : Type} (f : A → bool) (l l' : list A) :
  l ≡ₚ l' → forallb f l = forallb f l'.
Proof.
  induction 1 as [| a l l' _ IH | a b l | l l' l'' _ IH1 _ IH2]; simpl.
  - done.
  - by rewrite IH.
  - by destruct (f a), (f b).
  - by rewrite IH1.
Qed.

Lemma forallb_matched (children this_children : list Node) :
  forallb (matched children) this_children = true
  ↔ ∀ child, child ∈ this_children →
      ∃ c, firstWithKey (getKey child) children = Some c ∧ compare child c = true.
Proof.
  rewrite forallb_forall. setoid_rewrite <- list_elem_of_In.
  unfold matched. split; intros H child Hin; specialize (H child Hin).
  - destruct (firstWithKey _ children) as [c|]; [by exists c | done].
  - by destruct H as (c & -> & Hc).
Qed.

(** C3 (as the code has it).  For two Elements that pass the base
    comparison, have equal style maps and equal child counts, [compare] is
    true exactly when every child of [this] compares equal to the first
    child of [other] that carries its key.  When the children of [other]
    have pairwise distinct keys, that is: every child of [this] has a child
    of [other] with the same key that compares equal to it, and the
    physical order of the children on either side does not change the
    verdict. *)
Theorem compare_matches_by_key (this other : Node) :
  isElement this = true →
  isElement other = true →
  NodeBase.compare this other = true →
  isEqual (getStyle this) (getStyle other) = true →
  getChildrenSize other = getChildrenSize this →
  (compare this other = true
   ↔ ∀ child, child ∈ getChildren this →
       ∃ c, firstWithKey (getKey child) (getChildren other) = Some c
            ∧ compare child c = true)
  ∧ (NoDup (getChildrenKeys other) →
     (compare this other = true
      ↔ ∀ child, child ∈ getChildren this →
          ∃ c, c ∈ getChildren other ∧ getKey c = getKey child
               ∧ compare child c = true))
  ∧ (NoDup (getChildrenKeys other) →
     ∀ cs cs', cs ≡ₚ getChildren this → cs' ≡ₚ getChildren other →
       compare (setChildren cs this) (setChildren cs' other)
       = compare this other).
Proof.
  destruct this as [key parent type style children | ]; [intros _ | done].
  destruct other as [okey oparent otype ostyle ochildren | ]; [intros _ | done].
  unfold getChildrenSize, getChildrenKeys. cbn [getChildren getStyle setChildren].
  intros Hbase Hstyle Hsize.
  assert (compare (ElementNode key parent type style children)
            (ElementNode okey oparent otype ostyle ochildren)
          = forallb (matched ochildren) children) as Hcmp.
  { rewrite compare_unfold. cbn [getChildren getStyle isElement].
    rewrite Hbase, Hstyle, Hsize, Z.eqb_refl. done. }
  rewrite Hcmp. split; [apply forallb_matched|]. split.
  - intros Hnd. rewrite forallb_matched.
    split; intros H child Hin; destruct (H child Hin) as (c & Hc & Hcc).
    + apply firstWithKey_Some in Hc as [? ?]. by exists c.
    + destruct Hcc as [Hk Hcc]. exists c. split; [|done].
      rewrite <- Hk. by apply firstWithKey_NoDup.
  - intros Hnd cs cs' Hcs Hcs'. rewrite compare_unfold.
    cbn [getChildren getStyle isElement].
    change (NodeBase.compare (ElementNode key parent type style cs)
              (ElementNode okey oparent otype ostyle cs'))
      with (NodeBase.compare (ElementNode key parent type style children)
              (ElementNode okey oparent otype ostyle ochildren)).
    rewrite Hbase, Hstyle.
    rewrite (Permutation_length Hcs), (Permutation_length Hcs'), Hsize, Z.eqb_refl.
    simpl.
    rewrite (forallb_Permutation _ _ _ Hcs).
    apply forallb_pointwise. intros child. unfold matched.
    by rewrite (firstWithKey_Permutation _ ochildren cs').
Qed.

Lemma compare_matches_by_key_witness :
  (compare Samples.ab Samples.ba = true
   ↔ ∀ child, child ∈ getChildren Samples.ab →
       ∃ c, firstWithKey (getKey child) (getChildren Samples.ba) = Some c
            ∧ compare child c = true)
  ∧ (NoDup (getChildrenKeys Samples.ba) →
     (compare Samples.ab Samples.ba = true
      ↔ ∀ child, child ∈ getChildren Samples.ab →
          ∃ c, c ∈ getChildren Samples.ba ∧ getKey c = getKey child
               ∧ compare child c = true))
  ∧ (NoDup (getChildrenKeys Samples.ba) →
     ∀ cs cs', cs ≡ₚ getChildren Samples.ab → cs' ≡ₚ getChildren Samples.ba →
       compare (setChildren cs Samples.ab) (setChildren cs' Samples.ba)
       = compare Samples.ab Samples.ba).
Proof.
  apply (compare_matches_by_key Samples.ab Samples.ba); reflexivity.
Defined.

(** The same children in the two physical orders compare equal. *)
Example compare_reordered : compare Samples.ab Samples.ba = true.
Proof. reflexivity. Qed.

(** C3 as stated fails when keys repeat: every child of the first Element
    has a child of the second with its key that compares equal to it, yet
    [compare] looks at the first child carrying the key only. *)
Lemma compare_first_key_only :
  isElement Samples.twins_yy = true
  ∧ isElement Samples.twins_xy = true
  ∧ NodeBase.compare Samples.twins_yy Samples.twins_xy = true
  ∧ isEqual (getStyle Samples.twins_yy) (getStyle Samples.twins_xy) = true
  ∧ getChildrenSize Samples.twins_xy = getChildrenSize Samples.twins_yy
  ∧ (∀ child, child ∈ getChildren Samples.twins_yy →
       ∃ c, c ∈ getChildren Samples.twins_xy ∧ getKey c = getKey child
            ∧ compare child c = true)
  ∧ compare Samples.twins_yy Samples.twins_xy = false.
Proof.
  repeat split; try reflexivity.
  intros child Hin. exists (TextNode "a" (Some "e") "y").
  split; [vm_compute; apply list_elem_of_In; simpl; auto|].
  vm_compute in Hin. apply list_elem_of_In in Hin.
  destruct Hin as [<- | [<- | []]]; split; reflexivity.
Qed.

(** ** Round trip through the serialized form *)

Lemma forallb_Forall {A : Type} (f : A → bool) (l : list A) :
  forallb f l = true ↔ Forall (λ a, f a = true) l.
Proof.
  rewrite forallb_forall, Forall_forall.
  by setoid_rewrite <- list_elem_of_In.
Qed.

(** Children rebuilt from an Element without style and with pairwise
    distinct child keys: the Element over the rebuilt children compares
    equal to it as soon as each rebuilt child compares equal to its
    original. *)
Lemma compare_rebuilt_children key p parent type style children q :
  style = ∅ →
  NoDup (map getKey children) →
  Forall (λ c, compare (rebuilt q c) c = true) children →
  compare (ElementNode key p type ∅ (map (rebuilt q) children))
    (ElementNode key parent type style children) = true.
Proof.
  intros -> Hnd Hall. rewrite compare_unfold.
  cbn [isElement getStyle getChildren]. rewrite length_map, Z.eqb_refl.
  unfold NodeBase.compare, isEqual. cbn [getType].
  rewrite !bool_decide_eq_true_2 by done. simpl.
  rewrite forallb_Forall, Forall_map. rewrite Forall_forall in Hall |- *.
  intros c Hin. unfold matched. rewrite getKey_rebuilt.
  rewrite firstWithKey_NoDup by done. by apply Hall.
Qed.

(** A node built by the polymorphic constructor, without styles and with
    distinct sibling keys, compares equal to itself once rebuilt. *)
Lemma compare_rebuilt n p :
  dispatched n = true → styleless n = true → distinct_sibling_keys n = true →
  compare (rebuilt p n) n = true.
Proof.
  revert p. induction n as [key parent text | key parent type style children IH]
    using Node_tree_ind; intros p.
  - intros _ _ _. simpl. unfold Text.compare, NodeBase.compare. simpl.
    by rewrite !bool_decide_eq_true_2.
  - cbn [dispatched styleless distinct_sibling_keys rebuilt].
    intros [Htype Hd]%andb_true_iff [Hstyle Hs]%andb_true_iff
      [Hnd Hk]%andb_true_iff.
    apply negb_true_iff in Htype. rewrite Htype.
    apply bool_decide_eq_true in Hstyle, Hnd.
    apply compare_rebuilt_children; [done..|].
    rewrite forallb_Forall in Hd, Hs, Hk.
    rewrite Forall_forall in IH, Hd, Hs, Hk |- *.
    intros c Hin. apply IH; auto.
Qed.

(** C4 (as the code has it).  For every Element E built by the polymorphic
    constructor, whose sibling keys are pairwise distinct at every depth
    and in which no Element has a style, the Element reconstructed from
    [E.toJSON(true)] compares equal to E. *)
Theorem roundtrip_compare (E : Node) (ks : KeySource) :
  isElement E = true →
  distinct_sibling_keys E = true →
  dispatched_children E = true →
  styleless E = true →
  compare (new (toJSON true E) ks).1 E = true.
Proof.
  destruct E as [key parent type style children | ]; [intros _ | done].
  unfold dispatched_children. cbn [distinct_sibling_keys styleless getChildren].
  intros [Hnd Hk]%andb_true_iff Hd [Hstyle Hs]%andb_true_iff.
  apply bool_decide_eq_true in Hstyle, Hnd.
  pose proof (create_toJSON_true key parent type style children ks) as Hnew.
  unfold create in Hnew. rewrite Hnew. cbn [fst].
  apply compare_rebuilt_children; [done..|].
  rewrite forallb_Forall in Hd, Hs, Hk.
  rewrite Forall_forall in Hd, Hs, Hk |- *.
  intros c Hin. apply compare_rebuilt; auto.
Qed.

Lemma roundtrip_compare_witness :
  compare (new (toJSON true Samples.abc) Samples.keys).1 Samples.abc = true.
Proof.
  apply (roundtrip_compare Samples.abc Samples.keys); reflexivity.
Defined.

(** C4 as stated fails on an Element whose style was set: the style is not
    serialized and the constructor starts from the empty style. *)
Lemma roundtrip_loses_style :
  isElement Samples.styled = true
  ∧ distinct_sibling_keys Samples.styled = true
  ∧ getChildren Samples.styled = []
  ∧ compare (new (toJSON true Samples.styled) Samples.keys).1 Samples.styled
    = false.
Proof. repeat split; reflexivity. Qed.

(** ** The polymorphic constructor builds [dispatched] children *)

Lemma rebuilt_dispatched p n : dispatched (rebuilt p n) = true.
Proof.
  revert p. induction n as [key parent text | key parent type style children IH]
    using Node_tree_ind; intros p; simpl; [done|].
  case_bool_decide as Htype; simpl; [done|].
  rewrite bool_decide_eq_false_2 by done. simpl.
  rewrite forallb_Forall, Forall_map. eapply Forall_impl; [exact IH|].
  intros c Hc. apply Hc.
Qed.

Lemma appendChild_dispatched child E ks :
  dispatched_children E = true →
  dispatched_children (appendChild child E ks).1 = true.
Proof.
  unfold dispatched_children, appendChild. rewrite adopt_rebuilt.
  destruct E as [key parent type style children | ]; [|done].
  cbn [fst getChildren setChildren]. unfold JSArray.push.
  rewrite forallb_app. intros ->. simpl. by rewrite rebuilt_dispatched.
Qed.

Lemma insert_dispatched index items E ks :
  dispatched_children E = true →
  dispatched_children (insert index items E ks).1 = true.
Proof.
  destruct E as [key parent type style children | ];
    [|unfold insert; by rewrite mapKS_adopt].
  rewrite insert_unfold. unfold dispatched_children. cbn [fst getChildren].
  rewrite !forallb_Forall. intros Hall.
  rewrite !Forall_app. repeat split.
  - by apply Forall_take.
  - apply Forall_map, Forall_forall. intros c _.
    rewrite adopt_rebuilt. apply rebuilt_dispatched.
  - by apply Forall_drop.
Qed.

Lemma NodeOptions_tree_ind (P : NodeOptions → Prop) :
  (∀ key type parent text style size children,
      Forall P (default [] children) →
      P (mkNodeOptions key type parent text style size children)) →
  ∀ o, P o.
Proof.
  intros Hstep. fix IH 1.
  intros [key type parent text style size children]. apply Hstep.
  destruct children as [l|]; simpl; [|constructor].
  induction l as [|c l IHl]; constructor; auto.
Qed.

Lemma mapKS_Forall {A B : Type} (f : A → KeySource → B * KeySource)
    (Q : B → Prop) l ks :
  Forall (λ a, ∀ ks', Q (f a ks').1) l → Forall Q (mapKS f l ks).1.
Proof.
  intros Hall. revert ks.
  induction Hall as [|a l Ha _ IH]; intros ks; simpl; [constructor|].
  specialize (Ha ks). destruct (f a ks) as [y ks1].
  specialize (IH ks1). destruct (mapKS f l ks1) as [ys ks2].
  by constructor.
Qed.

Lemma newAt_dispatched options parent ks :
  dispatched_children (newAt parent options ks).1 = true
  ∧ (isElementObject options = true →
     dispatched (newAt parent options ks).1 = true).
Proof.
  revert parent ks.
  induction options as [key type p text style size children IH]
    using NodeOptions_tree_ind; intros parent ks.
  assert (dispatched_children
            (newAt parent (mkNodeOptions key type p text style size children) ks).1
          = true) as Hchildren.
  { unfold dispatched_children. cbn [newAt opt_children opt_type].
    destruct (assignKey _ ks) as [k ks1].
    destruct children as [l|]; simpl in IH |- *; [|done].
    pose proof (mapKS_Forall
      (λ child ks', if isElementObject child then newAt (Some k) child ks'
                    else Text.new (Some k) child ks')
      (λ n, dispatched n = true) l ks1) as Hmap.
    destruct (mapKS _ l ks1) as [cs ks2]. cbn [fst getChildren] in Hmap |- *.
    apply forallb_Forall, Hmap.
    eapply Forall_impl; [exact IH|]. intros c Hc ks'.
    destruct (isElementObject c) eqn:Hobj.
    - by apply Hc.
    - unfold Text.new. by destruct (assignKey c ks'). }
  split; [done|].
  intros Hobj. unfold dispatched_children in Hchildren.
  revert Hchildren. cbn [newAt opt_children opt_type].
  destruct (assignKey _ ks) as [k ks1].
  destruct (match children with Some _ => _ | None => _ end) as [cs ks2].
  cbn [fst getChildren dispatched]. intros ->.
  rewrite andb_true_r. apply negb_true_iff, bool_decide_eq_false.
  unfold isElementObject in Hobj. cbn [opt_type] in Hobj.
  apply negb_true_iff, bool_decide_eq_false in Hobj.
  destruct type as [t|]; simpl; [congruence | done].
Qed.

(** Every Element the constructor returns has [dispatched] children. *)
Lemma new_dispatched options ks : dispatched_children (new options ks).1 = true.
Proof. apply newAt_dispatched. Qed.

Lemma removeChild_dispatched key E :
  dispatched_children E = true → dispatched_children (removeChild key E) = true.
Proof.
  destruct E as [k parent type style children | ]; [|done].
  unfold dispatched_children, removeChild. cbn [getChildren].
  destruct (_ <? 0); [done|]. unfold JSArray.splice. cbn [snd setChildren getChildren].
  rewrite !forallb_Forall. intros Hall. rewrite app_nil_l, Forall_app.
  split; [by apply Forall_take | by apply Forall_drop].
Qed.

Lemma split_dispatched offset E ks :
  isElement E = true →
  let '(cloneLeft, cloneRight, _, _) := split offset E ks in
  dispatched_children cloneLeft = true ∧ dispatched_children cloneRight = true.
Proof.
  destruct E as [key parent type style children | ]; [intros _ | done].
  rewrite split_unfold. unfold dispatched_children. cbn [getChildren].
  rewrite !forallb_Forall.
  split; apply Forall_map, Forall_forall; intros c _; apply rebuilt_dispatched.
Qed.

(** * Further properties of the class *)

(** ** appendChild *)

Lemma appendChild_unfold key parent type style children child ks :
  appendChild child (ElementNode key parent type style children) ks
  = (ElementNode key parent type style
       (children ++ [rebuilt (Some key) child]), ks).
Proof. unfold appendChild. by rewrite adopt_rebuilt. Qed.

(** X1.  [appendChild(child)] stores one more child, after the children
    already there: a rebuilt copy that carries the key of the child given
    and names the Element as its parent.  The children already stored and
    the Element's own key, parent, type and style stay as they were. *)
Theorem appendChild_appends (E child : Node) (ks : KeySource) :
  isElement E = true →
  let E_after := (appendChild child E ks).1 in
  ∃ copy,
    getChildren E_after = getChildren E ++ [copy]
    ∧ copy = (adopt E child ks).1
    ∧ getKey copy = getKey child
    ∧ getParentKey copy = Some (getKey E)
    ∧ getChildrenSize E_after = getChildrenSize E + 1
    ∧ setChildren (getChildren E) E_after = E.
Proof.
  destruct E as [key parent type style children | ]; [intros _ | done].
  cbn zeta. rewrite appendChild_unfold, adopt_rebuilt. cbn [fst getChildren].
  exists (rebuilt (Some key) child). split_and!; try done.
  - apply getKey_rebuilt.
  - apply getParentKey_rebuilt.
  - unfold getChildrenSize. cbn [getChildren]. rewrite length_app. simpl. lia.
Qed.

Lemma appendChild_appends_witness :
  let E_after := (appendChild Samples.x Samples.abc Samples.keys).1 in
  ∃ copy,
    getChildren E_after = getChildren Samples.abc ++ [copy]
    ∧ copy = (adopt Samples.abc Samples.x Samples.keys).1
    ∧ getKey copy = getKey Samples.x
    ∧ getParentKey copy = Some (getKey Samples.abc)
    ∧ getChildrenSize E_after = getChildrenSize Samples.abc + 1
    ∧ setChildren (getChildren Samples.abc) E_after = Samples.abc.
Proof.
  apply (appendChild_appends Samples.abc Samples.x Samples.keys). reflexivity.
Defined.

(** ** hasChild and indexOf *)

Lemma hasChild_elem_of key E :
  hasChild key E = true ↔ key ∈ getChildrenKeys E.
Proof.
  unfold hasChild, JSArray.some, getChildrenKeys.
  rewrite existsb_exists, list_elem_of_fmap. split.
  - intros (c & Hin & Hc). apply bool_decide_eq_true in Hc.
    exists c. split; [done | by apply list_elem_of_In].
  - intros (c & -> & Hin). exists c.
    split; [by apply list_elem_of_In | by apply bool_decide_eq_true].
Qed.

Lemma hasChild_false key E :
  hasChild key E = false ↔ key ∉ getChildrenKeys E.
Proof.
  rewrite <- hasChild_elem_of. by destruct (hasChild key E).
Qed.

(** X2.  [indexOf(key)] is [-1] exactly when no child carries the key and
    is otherwise the position of the first child that does; [hasChild(key)]
    says whether there is one. *)
Theorem indexOf_first_position (E : Node) (key : NodeKey) :
  isElement E = true →
  (hasChild key E = true ↔ key ∈ getChildrenKeys E)
  ∧ (hasChild key E = true ↔ indexOf key E ≠ -1)
  ∧ -1 ≤ indexOf key E < getChildrenSize E
  ∧ (indexOf key E ≠ -1 →
     getChildrenKeys E !! Z.to_nat (indexOf key E) = Some key
     ∧ key ∉ take (Z.to_nat (indexOf key E)) (getChildrenKeys E)).
Proof.
  intros _. split; [apply hasChild_elem_of|].
  rewrite hasChild_elem_of.
  unfold indexOf, getChildrenKeys, getChildrenSize.
  destruct (findIndex_spec (λ child, bool_decide (getKey child = key))
              (getChildren E))
    as [[Hidx Hall] | (before & c & after & Hl & Hc & Hbefore & Hidx)];
    rewrite Hidx.
  - apply no_key_match in Hall. repeat split; try done; lia.
  - apply bool_decide_eq_true in Hc. apply no_key_match in Hbefore.
    rewrite Hl, map_app, length_app, Nat2Z.id. simpl.
    assert (length before = length (map getKey before)) as Hlen
      by by rewrite length_map.
    repeat split; try lia.
    + intros _. apply elem_of_app. right. rewrite Hc. constructor.
    + rewrite Hlen, list_lookup_middle by done. by rewrite Hc.
    + rewrite Hlen at 1. by rewrite take_app_length.
Qed.

Lemma indexOf_first_position_witness :
  (hasChild "c" Samples.abc = true ↔ "c" ∈ getChildrenKeys Samples.abc)
  ∧ (hasChild "c" Samples.abc = true ↔ indexOf "c" Samples.abc ≠ -1)
  ∧ -1 ≤ indexOf "c" Samples.abc < getChildrenSize Samples.abc
  ∧ (indexOf "c" Samples.abc ≠ -1 →
     getChildrenKeys Samples.abc !! Z.to_nat (indexOf "c" Samples.abc) = Some "c"
     ∧ "c" ∉ take (Z.to_nat (indexOf "c" Samples.abc))
               (getChildrenKeys Samples.abc)).
Proof. apply (indexOf_first_position Samples.abc "c"). reflexivity. Defined.

(** ** removeChild and the other queries *)

Lemma removeChild_cases key k parent type style children :
  ((key ∉ map getKey children)
   ∧ removeChild key (ElementNode k parent type style children)
     = ElementNode k parent type style children)
  ∨ (∃ before c after,
        children = before ++ c :: after
        ∧ getKey c = key
        ∧ (key ∉ map getKey before)
        ∧ removeChild key (ElementNode k parent type style children)
          = ElementNode k parent type style (before ++ after)).
Proof.
  unfold removeChild. cbn [getChildren setChildren].
  destruct (findIndex_spec (λ child, bool_decide (getKey child = key)) children)
    as [[Hidx Hall] | (before & c & after & Hl & Hc & Hbefore & Hidx)];
    rewrite Hidx.
  - left. split; [by apply no_key_match | done].
  - right. exists before, c, after.
    destruct (Z.ltb_spec (Z.of_nat (length before)) 0); [lia|].
    rewrite Hl, splice_delete_one. apply bool_decide_eq_true in Hc.
    repeat split; try done. by apply no_key_match.
Qed.

(** X3.  [removeChild(key)] takes out at most one child: the child count
    drops by one when a child carries the key and not at all otherwise, and
    no other key appears or disappears.  When the children's keys are
    pairwise distinct the key is gone afterwards and a second call changes
    nothing. *)
Theorem removeChild_one_child (E : Node) (key : NodeKey) :
  isElement E = true →
  getChildrenSize (removeChild key E)
  = getChildrenSize E - (if hasChild key E then 1 else 0)
  ∧ (∀ other, other ≠ key → hasChild other (removeChild key E) = hasChild other E)
  ∧ (NoDup (getChildrenKeys E) →
     hasChild key (removeChild key E) = false
     ∧ removeChild key (removeChild key E) = removeChild key E).
Proof.
  destruct E as [k parent type style children | ]; [intros _ | done].
  destruct (removeChild_cases key k parent type style children)
    as [[Hnot Heq] | (before & c & after & -> & Hc & Hbefore & Heq)];
    rewrite !Heq.
  - assert (hasChild key (ElementNode k parent type style children) = false)
      as Hhas by by apply hasChild_false.
    rewrite Hhas. split_and!; [lia | done |]. by intros _.
  - assert (hasChild key (ElementNode k parent type style (before ++ c :: after))
            = true) as Hhas.
    { apply hasChild_elem_of. unfold getChildrenKeys. cbn [getChildren].
      rewrite map_app. apply elem_of_app. right. simpl. rewrite Hc. constructor. }
    rewrite Hhas. unfold getChildrenSize, getChildrenKeys. cbn [getChildren].
    split; [rewrite !length_app; simpl; lia|]. split.
    + intros other Hother. unfold hasChild, JSArray.some. cbn [getChildren].
      rewrite !existsb_app. simpl.
      rewrite (bool_decide_eq_false_2 (getKey c = other)) by congruence. done.
    + rewrite map_app. simpl. rewrite Hc. intros Hnd.
      apply NoDup_app in Hnd as (_ & Hdisj & Hnd).
      apply NoDup_cons in Hnd as [Hafter _].
      assert (key ∉ map getKey (before ++ after)) as Hgone.
      { rewrite map_app, elem_of_app. by intros [?|?]. }
      split; [by apply hasChild_false|].
      destruct (removeChild_cases key k parent type style (before ++ after))
        as [[_ Heq'] | (b' & c' & a' & Hl' & Hc' & _ & _)]; [done|].
      exfalso. apply Hgone. rewrite Hl', map_app. apply elem_of_app. right.
      simpl. rewrite Hc'. constructor.
Qed.

Lemma removeChild_one_child_witness :
  getChildrenSize (removeChild "b" Samples.abc)
  = getChildrenSize Samples.abc - (if hasChild "b" Samples.abc then 1 else 0)
  ∧ (∀ other, other ≠ "b" →
       hasChild other (removeChild "b" Samples.abc) = hasChild other Samples.abc)
  ∧ (NoDup (getChildrenKeys Samples.abc) →
     hasChild "b" (removeChild "b" Samples.abc) = false
     ∧ removeChild "b" (removeChild "b" Samples.abc) = removeChild "b" Samples.abc).
Proof. apply (removeChild_one_child Samples.abc "b"). reflexivity. Defined.

(** With a repeated key, the key is still there after one [removeChild]. *)
Example removeChild_repeated_key :
  hasChild "a" (removeChild "a" Samples.twins_xy) = true.
Proof. reflexivity. Qed.

Lemma removeChild_head k parent type style c children :
  removeChild (getKey c) (ElementNode k parent type style (c :: children))
  = ElementNode k parent type style children.
Proof.
  unfold removeChild, JSArray.findIndex. cbn [getChildren setChildren].
  cbn [JSArray.findIndexFrom]. rewrite bool_decide_eq_true_2 by done.
  change (0 <? 0) with false. cbn iota.
  change (JSArray.splice 0 1 [] (c :: children))
    with (JSArray.splice (Z.of_nat (length (@nil Node))) 1 [] ([] ++ c :: children)).
  by rewrite splice_delete_one.
Qed.

(** X4.  Calling [removeChild] with each of the children's keys in turn,
    in the order of [getChildrenKeys()], leaves what [empty()] leaves: no
    children, the rest of the Element as it was; repeated keys
    included. *)
Theorem removeChild_all_keys_is_empty (E : Node) :
  isElement E = true →
  fold_left (λ e key, removeChild key e) (getChildrenKeys E) E = empty E
  ∧ getChildrenSize (empty E) = 0
  ∧ setChildren (getChildren E) (empty E) = E.
Proof.
  destruct E as [k parent type style children | ]; [intros _ | done].
  unfold empty, getChildrenKeys. cbn [getChildren setChildren].
  split; [|done].
  induction children as [|c children IH]; [done|].
  cbn [map fold_left]. by rewrite removeChild_head.
Qed.

Lemma removeChild_all_keys_is_empty_witness :
  fold_left (λ e key, removeChild key e) (getChildrenKeys Samples.twins_xy)
    Samples.twins_xy = empty Samples.twins_xy
  ∧ getChildrenSize (empty Samples.twins_xy) = 0
  ∧ setChildren (getChildren Samples.twins_xy) (empty Samples.twins_xy)
    = Samples.twins_xy.
Proof. apply (removeChild_all_keys_is_empty Samples.twins_xy). reflexivity. Defined.

(** ** insert, appendChild and removeChild together *)

Lemma findIndexFrom_middle {A : Type} (p : A → bool) i before c after :
  Forall (λ a, p a = false) before → p c = true →
  JSArray.findIndexFrom p i (before ++ c :: after) = i + Z.of_nat (length before).
Proof.
  intros Hbefore Hc. revert i.
  induction Hbefore as [|a l Ha _ IH]; intros i; simpl.
  - rewrite Hc. lia.
  - rewrite Ha, IH. lia.
Qed.

Lemma removeChild_middle key k parent type style before c after :
  key ∉ map getKey before → getKey c = key →
  removeChild key (ElementNode k parent type style (before ++ c :: after))
  = ElementNode k parent type style (before ++ after).
Proof.
  intros Hbefore Hc. unfold removeChild, JSArray.findIndex.
  cbn [getChildren setChildren].
  rewrite (findIndexFrom_middle _ 0 before c after);
    [|by apply no_key_match | by apply bool_decide_eq_true].
  rewrite Z.add_0_l.
  destruct (Z.ltb_spec (Z.of_nat (length before)) 0); [lia|].
  by rewrite splice_delete_one.
Qed.

(** X5.  Inserting a child whose key no stored child carries and then
    removing that key gives the Element back, whatever the offset. *)
Theorem insert_then_removeChild (E X : Node) (offset : Z) (ks : KeySource) :
  isElement E = true →
  getKey X ∉ getChildrenKeys E →
  removeChild (getKey X) (insert offset [X] E ks).1 = E.
Proof.
  destruct E as [key parent type style children | ]; [intros _ | done].
  unfold getChildrenKeys. cbn [getChildren]. intros Hfresh.
  rewrite insert_unfold. cbn zeta. cbn [fst map app].
  set (k := Z.to_nat (JSArray.relIndex (Z.of_nat (length children)) offset)).
  rewrite removeChild_middle.
  - by rewrite take_drop.
  - intros Hin. apply Hfresh. rewrite <- (take_drop k children), map_app.
    apply elem_of_app. by left.
  - rewrite adopt_rebuilt. apply getKey_rebuilt.
Qed.

Lemma insert_then_removeChild_witness :
  removeChild (getKey Samples.x) (insert (-1) [Samples.x] Samples.abc Samples.keys).1
  = Samples.abc.
Proof.
  apply (insert_then_removeChild Samples.abc Samples.x (-1) Samples.keys).
  - reflexivity.
  - vm_compute. intros Hin. apply list_elem_of_In in Hin. simpl in Hin.
    destruct Hin as [H | [H | [H | []]]]; discriminate H.
Defined.

(** X6.  [insert] at the child count, or beyond it, is a run of
    [appendChild] calls, one per child given, in their order. *)
Theorem insert_at_end_is_appendChild (E : Node) (offset : Z)
    (items : list Node) (ks : KeySource) :
  isElement E = true →
  getChildrenSize E ≤ offset →
  insert offset items E ks = forEachKS appendChild items E ks.
Proof.
  destruct E as [key parent type style children | ]; [intros _ | done].
  unfold getChildrenSize. cbn [getChildren]. intros Hoffset.
  rewrite insert_unfold, forEach_appendChild. cbn zeta.
  replace (JSArray.relIndex (Z.of_nat (length children)) offset)
    with (Z.of_nat (length children)).
  - rewrite Nat2Z.id, take_ge, drop_ge, app_nil_r by lia.
    by rewrite (map_ext (λ c, (adopt _ c ks).1) (rebuilt (Some key)))
      by (intros c; by rewrite adopt_rebuilt).
  - destruct (decide (offset = Z.of_nat (length children))) as [->|Hne].
    + by rewrite relIndex_in_range by lia.
    + by rewrite relIndex_large by lia.
Qed.

Lemma insert_at_end_is_appendChild_witness :
  insert 7 [Samples.x; Samples.x] Samples.abc Samples.keys
  = forEachKS appendChild [Samples.x; Samples.x] Samples.abc Samples.keys.
Proof.
  apply (insert_at_end_is_appendChild Samples.abc 7 [Samples.x; Samples.x]
           Samples.keys).
  - reflexivity.
  - vm_compute. discriminate.
Defined.

(** ** clone, and the use of the key source *)

Lemma create_toJSON_true_keyless key parent type style children ks :
  create (assign_key None
            (toJSON true (ElementNode key parent type style children))) ks
  = (ElementNode (ks 0%nat) parent type ∅
       (map (rebuilt (Some (ks 0%nat))) children),
     λ n, ks (S n)).
Proof.
  unfold create. rewrite new_unfold. simpl.
  rewrite (mapKS_pure _ (toJSON true) (rebuilt (Some (ks 0%nat)))); [done|].
  apply Forall_forall. intros c _ ks'. apply createChildNode_toJSON.
Qed.

Lemma clone_unfold deep copyKey key parent type style children ks :
  clone deep copyKey (ElementNode key parent type style children) ks
  = let k := if copyKey then key else ks 0%nat in
    (ElementNode k parent type ∅
       (if deep then map (rebuilt (Some k)) children else []),
     if copyKey then ks else λ n, ks (S n)).
Proof.
  unfold clone. destruct deep, copyKey.
  - apply create_toJSON_true.
  - apply create_toJSON_true_keyless.
  - done.
  - done.
Qed.

(** X7.  How the operations use the key source.  [appendChild] and
    [insert] never ask it for a key: the stored copies keep the keys of
    the children given.  [split] asks for exactly one key, the key of
    [cloneRight].  [clone] asks for none when the key is copied and for
    exactly one, the clone's own key, when it is not. *)
Theorem key_source_usage (E : Node) (ks : KeySource) :
  isElement E = true →
  (∀ child, (appendChild child E ks).2 = ks)
  ∧ (∀ index items, (insert index items E ks).2 = ks)
  ∧ (∀ offset, (split offset E ks).2 = (generateKey ks).2)
  ∧ (∀ deep, (clone deep true E ks).2 = ks
             ∧ getKey (clone deep true E ks).1 = getKey E)
  ∧ (∀ deep, (clone deep false E ks).2 = (generateKey ks).2
             ∧ getKey (clone deep false E ks).1 = (generateKey ks).1).
Proof.
  destruct E as [key parent type style children | ]; [intros _ | done].
  split_and!.
  - intros child. by rewrite appendChild_unfold.
  - intros index items. by rewrite insert_unfold.
  - intros offset. by rewrite split_unfold.
  - intros deep. by rewrite clone_unfold.
  - intros deep. by rewrite clone_unfold.
Qed.

Lemma key_source_usage_witness :
  (∀ child, (appendChild child Samples.abc Samples.keys).2 = Samples.keys)
  ∧ (∀ index items, (insert index items Samples.abc Samples.keys).2 = Samples.keys)
  ∧ (∀ offset, (split offset Samples.abc Samples.keys).2
               = (generateKey Samples.keys).2)
  ∧ (∀ deep, (clone deep true Samples.abc Samples.keys).2 = Samples.keys
             ∧ getKey (clone deep true Samples.abc Samples.keys).1
               = getKey Samples.abc)
  ∧ (∀ deep, (clone deep false Samples.abc Samples.keys).2
             = (generateKey Samples.keys).2
             ∧ getKey (clone deep false Samples.abc Samples.keys).1
               = (generateKey Samples.keys).1).
Proof. apply (key_source_usage Samples.abc Samples.keys). reflexivity. Defined.

(** X8.  [clone] never carries the style over; a shallow clone has no
    children, a deep clone has the children's keys in their order, each
    child naming the clone as its parent; and cloning a deep clone with
    its key gives the deep clone again. *)
Theorem clone_shape (E : Node) (deep copyKey : bool) (ks : KeySource) :
  isElement E = true →
  let C := (clone deep copyKey E ks).1 in
  isElement C = true
  ∧ getStyle C = ∅
  ∧ getType C = getType E
  ∧ getParentKey C = getParentKey E
  ∧ getChildrenKeys C = (if deep then getChildrenKeys E else [])
  ∧ Forall (λ c, getParentKey c = Some (getKey C)) (getChildren C)
  ∧ (∀ ks', clone true true (clone true true E ks).1 ks'
            = ((clone true true E ks).1, ks')).
Proof.
  destruct E as [key parent type style children | ]; [intros _ | done].
  cbn zeta. rewrite !clone_unfold. cbn zeta. cbn [fst].
  unfold getChildrenKeys. cbn [isElement getStyle getType getParentKey getChildren getKey].
  split_and!; try done.
  - destruct deep; [|done]. rewrite map_map. apply map_ext. intros c.
    apply getKey_rebuilt.
  - destruct deep; [|constructor]. apply Forall_map, Forall_forall.
    intros c _. apply getParentKey_rebuilt.
  - intros ks'. rewrite clone_unfold. cbn zeta. do 2 f_equal.
    rewrite map_map. apply map_ext_Forall.
    induction children as [|c cs IH]; constructor; [|done].
    clear IH. generalize (Some key). clear.
    induction c as [k p text | k p type style children IH] using Node_tree_ind;
      intros q; simpl; [done|].
    case_bool_decide as Htype; simpl; [done|].
    rewrite bool_decide_eq_false_2 by done. f_equal.
    rewrite map_map. apply map_ext_Forall.
    eapply Forall_impl; [exact IH|]. intros c Hc. apply Hc.
Qed.

Lemma clone_shape_witness :
  let C := (clone true false Samples.two_level Samples.keys).1 in
  isElement C = true
  ∧ getStyle C = ∅
  ∧ getType C = getType Samples.two_level
  ∧ getParentKey C = getParentKey Samples.two_level
  ∧ getChildrenKeys C = (if true then getChildrenKeys Samples.two_level else [])
  ∧ Forall (λ c, getParentKey c = Some (getKey C)) (getChildren C)
  ∧ (∀ ks', clone true true (clone true true Samples.two_level Samples.keys).1 ks'
            = ((clone true true Samples.two_level Samples.keys).1, ks')).
Proof.
  apply (clone_shape Samples.two_level true false Samples.keys). reflexivity.
Defined.

(** ** Invariants of the stored children *)

Lemma rebuilt_linked owner n : linked_under owner (rebuilt (Some owner) n) = true.
Proof.
  revert owner.
  induction n as [key parent text | key parent type style children IH]
    using Node_tree_ind; intros owner; simpl.
  - by rewrite bool_decide_eq_true_2.
  - case_bool_decide as Htype; simpl; rewrite bool_decide_eq_true_2 by done;
      [done|]. simpl.
    rewrite forallb_Forall, Forall_map. eapply Forall_impl; [exact IH|].
    intros c Hc. apply Hc.
Qed.

Lemma newAt_linked options owner ks :
  linked_under owner (newAt (Some owner) options ks).1 = true.
Proof.
  revert owner ks.
  induction options as [key type p text style size children IH]
    using NodeOptions_tree_ind; intros owner ks.
  cbn [newAt opt_children opt_type]. destruct (assignKey _ ks) as [k ks1].
  destruct children as [l|]; simpl in IH |- *;
    [|by rewrite bool_decide_eq_true_2].
  pose proof (mapKS_Forall
    (λ child ks', if isElementObject child then newAt (Some k) child ks'
                  else Text.new (Some k) child ks')
    (λ n, linked_under k n = true) l ks1) as Hmap.
  destruct (mapKS _ l ks1) as [cs ks2]. cbn [fst linked_under getParentKey] in Hmap |- *.
  rewrite bool_decide_eq_true_2 by done. simpl.
  apply forallb_Forall, Hmap.
  eapply Forall_impl; [exact IH|]. intros c Hc ks'.
  destruct (isElementObject c).
  - apply Hc.
  - unfold Text.new. destruct (assignKey c ks'). simpl.
    by rewrite bool_decide_eq_true_2.
Qed.

Lemma new_linked options ks : well_linked (new options ks).1 = true.
Proof.
  unfold new. pose proof (newAt_linked options EmptyString ks) as H.
  destruct options as [key type p text style size children].
  revert H. cbn [newAt opt_children opt_type opt_parent].
  destruct (assignKey _ ks) as [k ks1].
  destruct (match children with Some _ => _ | None => _ end) as [cs ks2].
  unfold well_linked. cbn [fst linked_under getChildren getKey].
  by intros [_ H]%andb_true_iff.
Qed.

(** X9.  Parent links are kept.  The constructor returns an Element in
    which every stored child, at any depth, names the Element that holds
    it; [appendChild], [insert] and [removeChild] keep an Element that
    way; and the two Elements [split] returns as well as the Element
    [clone] returns are that way whatever the receiver was. *)
Theorem parent_links_maintained :
  (∀ options ks, well_linked (new options ks).1 = true)
  ∧ (∀ E, isElement E = true → well_linked E = true →
       (∀ child ks, well_linked (appendChild child E ks).1 = true)
       ∧ (∀ index items ks, well_linked (insert index items E ks).1 = true)
       ∧ (∀ key, well_linked (removeChild key E) = true))
  ∧ (∀ E offset ks, isElement E = true →
       well_linked (split offset E ks).1.1.1 = true
       ∧ well_linked (split offset E ks).1.1.2 = true)
  ∧ (∀ E deep copyKey ks, isElement E = true →
       well_linked (clone deep copyKey E ks).1 = true).
Proof.
  split_and!.
  - apply new_linked.
  - intros [key parent type style children | ]; [intros _ | done].
    unfold well_linked. cbn [getChildren getKey].
    rewrite forallb_Forall. intros Hall. split_and!.
    + intros child ks. rewrite appendChild_unfold. cbn [fst getChildren getKey].
      rewrite forallb_Forall, Forall_app. split; [done|].
      constructor; [apply rebuilt_linked | constructor].
    + intros index items ks. rewrite insert_unfold. cbn zeta.
      cbn [fst getChildren getKey]. rewrite forallb_Forall, !Forall_app.
      split_and!; [by apply Forall_take | | by apply Forall_drop].
      apply Forall_map, Forall_forall. intros c _.
      rewrite adopt_rebuilt. apply rebuilt_linked.
    + intros k.
      destruct (removeChild_cases k key parent type style children)
        as [[_ ->] | (before & c & after & -> & _ & _ & ->)];
        cbn [getChildren getKey]; rewrite forallb_Forall; [done|].
      rewrite Forall_app, Forall_cons in Hall. rewrite Forall_app. tauto.
  - intros [key parent type style children | ] offset ks; [intros _ | done].
    rewrite split_unfold. cbn zeta. unfold well_linked.
    cbn [fst snd getChildren getKey]. rewrite !forallb_Forall.
    split; apply Forall_map, Forall_forall; intros c _; apply rebuilt_linked.
  - intros [key parent type style children | ] deep copyKey ks; [intros _ | done].
    rewrite clone_unfold. cbn zeta. unfold well_linked.
    cbn [fst getChildren getKey]. rewrite forallb_Forall.
    destruct deep; [|constructor].
    apply Forall_map, Forall_forall; intros c _; apply rebuilt_linked.
Qed.

(** X10.  Stored Element children never carry the text tag: the
    constructor builds its children that way, and [appendChild], [insert],
    [removeChild] and [split] keep or produce Elements that are that way,
    since a child is always stored through the polymorphic constructor. *)
Theorem text_tag_only_on_leaves :
  (∀ options ks, dispatched_children (new options ks).1 = true)
  ∧ (∀ E, dispatched_children E = true →
       (∀ child ks, dispatched_children (appendChild child E ks).1 = true)
       ∧ (∀ index items ks, dispatched_children (insert index items E ks).1 = true)
       ∧ (∀ key, dispatched_children (removeChild key E) = true))
  ∧ (∀ E offset ks, isElement E = true →
       dispatched_children (split offset E ks).1.1.1 = true
       ∧ dispatched_children (split offset E ks).1.1.2 = true).
Proof.
  split_and!.
  - apply new_dispatched.
  - intros E HE. split_and!.
    + intros child ks. by apply appendChild_dispatched.
    + intros index items ks. by apply insert_dispatched.
    + intros key. by apply removeChild_dispatched.
  - intros E offset ks HE. pose proof (split_dispatched offset E ks HE) as H.
    by destruct (split offset E ks) as [[[cl cr] ?] ?].
Qed.

(** ** The constructor *)

Lemma mapKS_Forall2 {A B : Type} (f : A → KeySource → B * KeySource)
    (Q : A → B → Prop) l ks :
  (∀ a ks', Q a (f a ks').1) → Forall2 Q l (mapKS f l ks).1.
Proof.
  intros HQ. revert ks. induction l as [|a l IH]; intros ks; simpl; [constructor|].
  specialize (HQ a ks). destruct (f a ks) as [y ks1].
  specialize (IH ks1). destruct (mapKS f l ks1) as [ys ks2].
  by constructor.
Qed.

Lemma mapKS_keeps_source {A B : Type} (f : A → KeySource → B * KeySource) l ks :
  Forall (λ a, ∀ ks', (f a ks').2 = ks') l → (mapKS f l ks).2 = ks.
Proof.
  intros Hall. revert ks.
  induction Hall as [|a l Ha _ IH]; intros ks; simpl; [done|].
  specialize (Ha ks). destruct (f a ks) as [y ks1]. simpl in Ha. subst ks1.
  specialize (IH ks). by destruct (mapKS f l ks) as [ys ks2].
Qed.

Lemma newAt_keyed options parent ks :
  keyed options = true → (newAt parent options ks).2 = ks.
Proof.
  revert parent ks.
  induction options as [key type p text style size children IH]
    using NodeOptions_tree_ind; intros parent ks.
  cbn [keyed newAt opt_key opt_children opt_type]. unfold assignKey. cbn [opt_key].
  destruct key as [k|]; [|done]. simpl.
  destruct children as [l|]; [|done]. simpl in IH. intros Hkeyed.
  pose proof (mapKS_keeps_source
    (λ child ks', if isElementObject child then newAt (Some k) child ks'
                  else Text.new (Some k) child ks') l ks) as Hmap.
  destruct (mapKS _ l ks) as [cs ks2]. cbn [snd] in Hmap |- *. apply Hmap.
  apply forallb_Forall in Hkeyed. rewrite Forall_forall in IH, Hkeyed |- *.
  intros c Hin ks'. specialize (Hkeyed c Hin).
  destruct (isElementObject c); [by apply IH|].
  unfold Text.new, assignKey. destruct c as [[ck|] ? ? ? ? ? ?]; [done|].
  by simpl in Hkeyed.
Qed.

(** X11.  What the constructor builds from a description: an Element with
    the empty style whatever the description holds, the description's
    parent, its type or the element tag when it has none, and one child per
    child description, in order: an Element unless the child description
    carries the text tag, with the key the child description gives.  The
    Element's key is the description's, or one key from the key source
    when the description gives none; the key source is not used at all
    when the description and all descriptions below it give their
    keys. *)
Theorem constructor_builds (options : NodeOptions) (ks : KeySource) :
  let E := (new options ks).1 in
  isElement E = true
  ∧ getStyle E = ∅
  ∧ getType E = default DATA_TYPE_ELEMENT (opt_type options)
  ∧ getParentKey E = opt_parent options
  ∧ Forall2 (λ d c, isElement c = isElementObject d
                    ∧ (∀ k, opt_key d = Some k → getKey c = k))
      (default [] (opt_children options)) (getChildren E)
  ∧ (∀ k, opt_key options = Some k → getKey E = k)
  ∧ (opt_key options = None → getKey E = (generateKey ks).1)
  ∧ (keyed options = true → (new options ks).2 = ks).
Proof.
  cbn zeta. split_and!.
  - rewrite new_unfold. destruct (assignKey options ks) as [key ks1].
    simpl. by destruct (mapKS _ _ ks1).
  - apply new_style.
  - rewrite new_unfold. destruct (assignKey options ks) as [key ks1].
    simpl. by destruct (mapKS _ _ ks1).
  - rewrite new_unfold. destruct (assignKey options ks) as [key ks1].
    simpl. by destruct (mapKS _ _ ks1).
  - rewrite new_unfold. destruct (assignKey options ks) as [key ks1]. cbn zeta.
    pose proof (mapKS_Forall2
      (λ child ks', createChildNode (assign_parent (Some key) child) ks')
      (λ d c, isElement c = isElementObject d
              ∧ (∀ k, opt_key d = Some k → getKey c = k))
      (default [] (opt_children options)) ks1) as Hmap.
    destruct (mapKS _ _ ks1) as [cs ks2]. cbn [fst getChildren] in Hmap |- *.
    apply Hmap. clear. intros d ks'.
    rewrite <- dispatch_createChildNode.
    destruct (isElementObject d) eqn:Hd.
    + destruct d as [dk dt dp dtx dst dsz dcs]. cbn [newAt opt_children opt_type].
      unfold assignKey. cbn [opt_key].
      destruct dk as [k|]; unfold generateKey; cbn beta iota;
        (destruct dcs as [l|]; [destruct (mapKS _ l _) as [cs ks2]|]);
        (split; [done|]); intros k' Hk'; by simplify_eq.
    + unfold Text.new, assignKey. destruct (opt_key d) as [k|];
        (split; [done|]); intros k' Hk'; by simplify_eq.
  - intros k Hk. rewrite new_unfold. unfold assignKey. rewrite Hk.
    simpl. by destruct (mapKS _ _ ks).
  - intros Hk. rewrite new_unfold. unfold assignKey. rewrite Hk.
    simpl. by destruct (mapKS _ _ _).
  - apply newAt_keyed.
Qed.

(** ** matches, contains and isEmpty over the descendants *)

Lemma descendants_descendant n d : d ∈ descendants n ↔ descendant n d.
Proof.
  split.
  - revert d. induction n as [key parent text | key parent type style children IH]
      using Node_tree_ind; intros d; simpl.
    + by intros ?%elem_of_nil.
    + rewrite list_elem_of_In, in_flat_map.
      intros (c & Hc%list_elem_of_In & Hd%list_elem_of_In).
      apply elem_of_cons in Hd as [-> | Hd]; [by constructor|].
      apply descendant_deeper with c; [done|].
      rewrite Forall_forall in IH. by apply IH.
  - induction 1 as [E c Hc | E c d Hc _ IH];
      (destruct E as [key parent type style children | ];
       [|by apply elem_of_nil in Hc]);
      simpl in *; rewrite list_elem_of_In, in_flat_map;
      exists c; (split; [by apply list_elem_of_In|]);
      apply list_elem_of_In; [constructor | by constructor].
Qed.

Lemma filter_flat_map {A B : Type} (p : B → bool) (f : A → list B) l :
  List.filter p (flat_map f l) = flat_map (λ a, List.filter p (f a)) l.
Proof.
  induction l as [|a l IH]; simpl; [done|].
  by rewrite List.filter_app, IH.
Qed.

Lemma flat_map_pointwise {A B : Type} (f g : A → list B) l :
  Forall (λ a, f a = g a) l → flat_map f l = flat_map g l.
Proof. induction 1 as [|a l Ha _ IH]; simpl; [done|]. by rewrite Ha, IH. Qed.

Lemma matches_filter callback n :
  matches callback n = List.filter callback (descendants n).
Proof.
  induction n as [key parent text | key parent type style children IH]
    using Node_tree_ind; simpl; [done|].
  rewrite filter_flat_map. apply flat_map_pointwise.
  eapply Forall_impl; [exact IH|]. intros c Hc. simpl.
  rewrite <- Hc.
  assert ((if isElement c then matches callback c else []) = matches callback c)
    as -> by by destruct c.
  by destruct (callback c).
Qed.

(** X12.  [matches(callback)] returns the direct and transitive children
    for which the callback holds, all of them and nothing else, in
    document order: a child before what lies below it, and all of that
    before the next sibling. *)
Theorem matches_in_document_order (E : Node) (callback : Node → bool) :
  isElement E = true →
  matches callback E = List.filter callback (descendants E)
  ∧ (∀ n, n ∈ matches callback E ↔ descendant E n ∧ callback n = true)
  ∧ (∀ children, getChildren E = children →
       descendants E = flat_map (λ c, c :: descendants c) children).
Proof.
  intros HE. split_and!.
  - apply matches_filter.
  - intros n. rewrite matches_filter, list_elem_of_In, filter_In.
    by rewrite <- list_elem_of_In, descendants_descendant.
  - intros children <-. by destruct E.
Qed.

Lemma matches_in_document_order_witness :
  matches Text.isText Samples.two_level
  = List.filter Text.isText (descendants Samples.two_level)
  ∧ (∀ n, n ∈ matches Text.isText Samples.two_level
          ↔ descendant Samples.two_level n ∧ Text.isText n = true)
  ∧ (∀ children, getChildren Samples.two_level = children →
       descendants Samples.two_level
       = flat_map (λ c, c :: descendants c) children).
Proof.
  apply (matches_in_document_order Samples.two_level Text.isText). reflexivity.
Defined.

(** The text leaves of the two-level sample, in document order. *)
Example matches_two_level :
  map getKey (matches Text.isText Samples.two_level) = ["t1"; "t2"].
Proof. reflexivity. Qed.

(** X13.  [contains(...keys)] agrees with [matches]: it is true exactly
    when matching on "the key is one of the keys given" finds a node; with
    no keys given both find nothing. *)
Theorem contains_iff_matches (E : Node) (keys : list NodeKey) :
  isElement E = true →
  (contains keys E = true
   ↔ matches (λ n, JSArray.includes keys (getKey n)) E ≠ []).
Proof.
  intros _. rewrite matches_filter.
  assert (List.filter (λ n, JSArray.includes keys (getKey n)) (descendants E) ≠ []
          ↔ ∃ d, descendant E d ∧ getKey d ∈ keys) as ->.
  { split.
    - destruct (List.filter _ _) as [|d l] eqn:Hf; [done|]. intros _.
      assert (In d (List.filter (λ n, JSArray.includes keys (getKey n))
                      (descendants E))) as Hin by (rewrite Hf; by left).
      apply filter_In in Hin as [Hin Hk]. exists d.
      split; [by apply descendants_descendant, list_elem_of_In|].
      by apply includes_elem_of.
    - intros (d & Hd & Hk) Hnil.
      assert (In d (List.filter (λ n, JSArray.includes keys (getKey n))
                      (descendants E))) as Hin.
      { apply filter_In. split.
        - by apply list_elem_of_In, descendants_descendant.
        - by apply includes_elem_of. }
      by rewrite Hnil in Hin. }
  destruct keys as [|k keys].
  - rewrite contains_no_keys. split; [done|].
    intros (d & _ & Hk). by apply elem_of_nil in Hk.
  - by apply contains_descendant.
Qed.

Lemma contains_iff_matches_witness :
  contains ["t2"; "zz"] Samples.two_level = true
  ↔ matches (λ n, JSArray.includes ["t2"; "zz"] (getKey n)) Samples.two_level ≠ [].
Proof. apply (contains_iff_matches Samples.two_level ["t2"; "zz"]). reflexivity. Defined.

Lemma forallb_flat_map {A B : Type} (p : B → bool) (f : A → list B) l :
  forallb p (flat_map f l) = forallb (λ a, forallb p (f a)) l.
Proof.
  induction l as [|a l IH]; simpl; [done|]. by rewrite forallb_app, IH.
Qed.

Lemma isEmpty_descendants n :
  isEmpty n
  = forallb (λ d, negb (Text.isText d) || Text.isEmpty d) (n :: descendants n).
Proof.
  induction n as [key parent text | key parent type style children IH]
    using Node_tree_ind.
  - simpl. by rewrite andb_true_r.
  - cbn [isEmpty descendants forallb Text.isText negb orb andb].
    rewrite forallb_flat_map. unfold JSArray.every.
    destruct children as [|c cs]; [done|].
    destruct (Z.eqb_spec (Z.of_nat (length (c :: cs))) 0) as [H|_];
      [simpl in H; lia|].
    induction IH as [|a l Ha _ IHl]; simpl; [done|]. rewrite IHl.
    f_equal. rewrite Ha. done.
Qed.

(** X14.  An Element is empty exactly when every text leaf below it, at
    any depth, is empty: Elements add nothing to emptiness by
    themselves. *)
Theorem isEmpty_iff_leaves_empty (E : Node) :
  isElement E = true →
  (isEmpty E = true
   ↔ ∀ d, descendant E d → Text.isText d = true → Text.isEmpty d = true).
Proof.
  destruct E as [key parent type style children | ]; [intros _ | done].
  rewrite isEmpty_descendants. cbn [forallb Text.isText negb orb andb].
  rewrite forallb_forall. setoid_rewrite <- list_elem_of_In.
  setoid_rewrite descendants_descendant.
  split; intros H d Hd.
  - intros Htext. specialize (H d Hd). by rewrite Htext in H.
  - specialize (H d Hd). destruct (Text.isText d); [by rewrite H | done].
Qed.

Lemma isEmpty_iff_leaves_empty_witness :
  isEmpty Samples.two_level = true
  ↔ ∀ d, descendant Samples.two_level d →
         Text.isText d = true → Text.isEmpty d = true.
Proof. apply (isEmpty_iff_leaves_empty Samples.two_level). reflexivity. Defined.

(** ** first and last *)

Lemma at_index_0 {A : Type} (l : list A) : JSArray.at_index l 0 = head l.
Proof. unfold JSArray.at_index. simpl. by rewrite head_lookup. Qed.

Lemma at_index_last {A : Type} (l : list A) :
  JSArray.at_index l (Z.of_nat (length l) - 1) = list.last l.
Proof.
  unfold JSArray.at_index. rewrite last_lookup.
  destruct l as [|a l]; [done|].
  destruct (Z.ltb_spec (Z.of_nat (length (a :: l)) - 1) 0) as [H|_];
    [simpl in H; lia|].
  f_equal. simpl. lia.
Qed.

(** X15.  [first()] and [last()] are the two ends of the children and are
    [null] exactly when there are no children; after [appendChild] the
    last child is the copy just stored, and after [insert(0, X)] the first
    child is the copy of X. *)
Theorem first_and_last (E : Node) :
  isElement E = true →
  first E = head (getChildren E)
  ∧ last E = list.last (getChildren E)
  ∧ (first E = None ↔ getChildrenSize E = 0)
  ∧ (last E = None ↔ getChildrenSize E = 0)
  ∧ (∀ child ks, last (appendChild child E ks).1 = Some (adopt E child ks).1)
  ∧ (∀ X ks, first (insert 0 [X] E ks).1 = Some (adopt E X ks).1).
Proof.
  destruct E as [key parent type style children | ]; [intros _ | done].
  unfold first, last, getChildrenSize. cbn [getChildren].
  rewrite at_index_0, at_index_last. split_and!; try done.
  - rewrite head_None. destruct children; simpl; [done|]. split; [done | lia].
  - rewrite last_None. destruct children; simpl; [done|]. split; [done | lia].
  - intros child ks. rewrite appendChild_unfold, adopt_rebuilt.
    cbn [fst getChildren]. by rewrite at_index_last, last_snoc.
  - intros X ks. rewrite insert_unfold. cbn zeta. cbn [fst getChildren].
    rewrite at_index_0, relIndex_in_range by lia. done.
Qed.

Lemma first_and_last_witness :
  first Samples.abc = head (getChildren Samples.abc)
  ∧ last Samples.abc = list.last (getChildren Samples.abc)
  ∧ (first Samples.abc = None ↔ getChildrenSize Samples.abc = 0)
  ∧ (last Samples.abc = None ↔ getChildrenSize Samples.abc = 0)
  ∧ (∀ child ks, last (appendChild child Samples.abc ks).1
                 = Some (adopt Samples.abc child ks).1)
  ∧ (∀ X ks, first (insert 0 [X] Samples.abc ks).1
             = Some (adopt Samples.abc X ks).1).
Proof. apply (first_and_last Samples.abc). reflexivity. Defined.

(** ** compare as a relation *)

Lemma compare_refl n : distinct_sibling_keys n = true → compare n n = true.
Proof.
  induction n as [key parent text | key parent type style children IH]
    using Node_tree_ind.
  - intros _. simpl. unfold Text.compare, NodeBase.compare. simpl.
    by rewrite !bool_decide_eq_true_2.
  - cbn [distinct_sibling_keys]. intros [Hnd Hk]%andb_true_iff.
    apply bool_decide_eq_true in Hnd.
    rewrite compare_unfold. cbn [isElement getStyle getChildren].
    unfold NodeBase.compare, isEqual.
    rewrite !bool_decide_eq_true_2, Z.eqb_refl by done. simpl.
    rewrite forallb_Forall in Hk |- *. rewrite Forall_forall in IH, Hk |- *.
    intros c Hin. unfold matched. rewrite firstWithKey_NoDup by done.
    by apply IH, Hk.
Qed.

(** X16.  [compare] is reflexive on trees whose sibling keys are pairwise
    distinct at every depth: such an Element compares equal to itself,
    whatever its styles. *)
Theorem compare_reflexive (E : Node) :
  isElement E = true →
  distinct_sibling_keys E = true →
  compare E E = true.
Proof. intros _. apply compare_refl. Qed.

Lemma compare_reflexive_witness : compare Samples.two_level Samples.two_level = true.
Proof. apply (compare_reflexive Samples.two_level); reflexivity. Defined.

(** With a repeated key an Element need not compare equal to itself. *)
Example compare_not_reflexive : compare Samples.twins_xy Samples.twins_xy = false.
Proof. reflexivity. Qed.

Lemma compare_unfold_true key parent type style children node :
  compare (ElementNode key parent type style children) node = true →
  isElement node = true
  ∧ NodeBase.compare (ElementNode key parent type style children) node = true
  ∧ style = getStyle node
  ∧ length (getChildren node) = length children
  ∧ ∀ c, c ∈ children →
      ∃ c', firstWithKey (getKey c) (getChildren node) = Some c'
            ∧ compare c c' = true.
Proof.
  rewrite compare_unfold.
  intros [[[[H1 H2]%andb_true_iff H3]%andb_true_iff H4]%andb_true_iff
            H5]%andb_true_iff.
  apply bool_decide_eq_true in H3. apply Z.eqb_eq in H4.
  split_and!; [done | done | done | lia |]. by apply forallb_matched.
Qed.

Lemma matched_keys_Permutation (children others : list Node) :
  NoDup (map getKey children) →
  length others = length children →
  (∀ c, c ∈ children → ∃ c', firstWithKey (getKey c) others = Some c') →
  map getKey children ≡ₚ map getKey others.
Proof.
  intros Hnd Hlen Hall. apply submseteq_length_Permutation.
  - apply NoDup_submseteq; [done|].
    intros k (c & -> & Hin)%list_elem_of_fmap.
    destruct (Hall c Hin) as (c' & [Hin' <-]%firstWithKey_Some).
    by apply list_elem_of_fmap_2.
  - rewrite !length_map. lia.
Qed.

(** X17.  What a true [compare] implies: the other node is an Element
    with the same style map and the same child count, every key among the
    children of [this] is a key among the children of the other, and when
    the children of [this] have pairwise distinct keys the two key
    sequences are rearrangements of each other. *)
Theorem compare_true_implies (this other : Node) :
  isElement this = true →
  compare this other = true →
  isElement other = true
  ∧ getStyle this = getStyle other
  ∧ getChildrenSize this = getChildrenSize other
  ∧ (∀ key, hasChild key this = true → hasChild key other = true)
  ∧ (NoDup (getChildrenKeys this) →
     getChildrenKeys this ≡ₚ getChildrenKeys other).
Proof.
  destruct this as [key parent type style children | ]; [intros _ | done].
  intros (Helem & _ & Hstyle & Hlen & Hall)%compare_unfold_true.
  unfold getChildrenSize, getChildrenKeys. cbn [getStyle getChildren].
  split_and!; [done | done | lia | |].
  - intros k. rewrite !hasChild_elem_of. unfold getChildrenKeys.
    cbn [getChildren]. intros (c & -> & Hin)%list_elem_of_fmap.
    destruct (Hall c Hin) as (c' & [Hin' <-]%firstWithKey_Some & _).
    by apply list_elem_of_fmap_2.
  - intros Hnd. apply matched_keys_Permutation; [done | done |].
    intros c Hin. destruct (Hall c Hin) as (c' & Hc' & _). by exists c'.
Qed.

Lemma compare_true_implies_witness :
  isElement Samples.ba = true
  ∧ getStyle Samples.ab = getStyle Samples.ba
  ∧ getChildrenSize Samples.ab = getChildrenSize Samples.ba
  ∧ (∀ key, hasChild key Samples.ab = true → hasChild key Samples.ba = true)
  ∧ (NoDup (getChildrenKeys Samples.ab) →
     getChildrenKeys Samples.ab ≡ₚ getChildrenKeys Samples.ba).
Proof. apply (compare_true_implies Samples.ab Samples.ba); reflexivity. Defined.

Lemma compare_sym n :
  ∀ m, distinct_sibling_keys n = true → compare n m = true → compare m n = true.
Proof.
  induction n as [key parent text | key parent type style children IH]
    using Node_tree_ind; intros m.
  - intros _. cbn [compare]. unfold Text.compare.
    destruct m as [ | mkey mparent mtext]; [done|]. simpl.
    unfold NodeBase.compare. simpl.
    intros ->%bool_decide_eq_true. unfold Text.compare, NodeBase.compare. simpl.
    by rewrite ?bool_decide_eq_true_2.
  - cbn [distinct_sibling_keys]. intros [Hnd Hk]%andb_true_iff.
    apply bool_decide_eq_true in Hnd. rewrite forallb_Forall in Hk.
    intros (Helem & Hbase & Hstyle & Hlen & Hall)%compare_unfold_true.
    destruct m as [mkey mparent mtype mstyle others | ]; [|done].
    cbn [getStyle getChildren] in *. subst mstyle.
    unfold NodeBase.compare in Hbase. cbn [getType] in Hbase.
    apply bool_decide_eq_true in Hbase. subst mtype.
    rewrite compare_unfold. cbn [isElement getStyle getChildren].
    unfold NodeBase.compare, isEqual. cbn [getType].
    rewrite !bool_decide_eq_true_2 by done. rewrite Hlen, Z.eqb_refl. simpl.
    assert (map getKey children ≡ₚ map getKey others) as Hperm.
    { apply matched_keys_Permutation; [done | done |].
      intros c Hin. destruct (Hall c Hin) as (c' & Hc' & _). by exists c'. }
    assert (NoDup (map getKey others)) as Hnd' by by rewrite <- Hperm.
    apply forallb_matched. intros c' Hin'.
    assert (getKey c' ∈ map getKey children) as (c & Hkey & Hin)%list_elem_of_fmap.
    { rewrite Hperm. by apply list_elem_of_fmap_2. }
    exists c. rewrite Hkey. split; [by apply firstWithKey_NoDup|].
    destruct (Hall c Hin) as (c'' & Hfirst & Hcmp).
    rewrite <- Hkey, firstWithKey_NoDup in Hfirst by done. simplify_eq.
    rewrite Forall_forall in IH, Hk. by apply IH; [| apply Hk |].
Qed.

(** X18.  [compare] is symmetric when the sibling keys of [this] are
    pairwise distinct at every depth: if [this.compare(other)] is true,
    so is [other.compare(this)]. *)
Theorem compare_symmetric (this other : Node) :
  isElement this = true →
  distinct_sibling_keys this = true →
  compare this other = true →
  compare other this = true.
Proof. intros _. apply compare_sym. Qed.

Lemma compare_symmetric_witness : compare Samples.ba Samples.ab = true.
Proof. apply (compare_symmetric Samples.ab Samples.ba); reflexivity. Defined.

(** With a repeated key the verdict can depend on the side asked. *)
Example compare_not_symmetric :
  compare Samples.twins_yy Samples.twins_yx = true
  ∧ compare Samples.twins_yx Samples.twins_yy = false.
Proof. split; reflexivity. Qed.

(** ** split, clone and the serialized form *)

(** X19.  Splitting at the two ends gives clones: at the child count,
    [cloneLeft] is the deep clone that keeps the key and [cloneRight] the
    shallow clone with a new key; at 0, [cloneLeft] is the shallow clone
    that keeps the key and [cloneRight] the deep clone with a new key. *)
Theorem split_at_ends_gives_clones (E : Node) (ks : KeySource) :
  isElement E = true →
  (split (getChildrenSize E) E ks).1.1.1 = (clone true true E ks).1
  ∧ (split (getChildrenSize E) E ks).1.1.2 = (clone false false E ks).1
  ∧ (split 0 E ks).1.1.1 = (clone false true E ks).1
  ∧ (split 0 E ks).1.1.2 = (clone true false E ks).1.
Proof.
  destruct E as [key parent type style children | ]; [intros _ | done].
  unfold getChildrenSize. cbn [getChildren].
  rewrite !split_unfold, !clone_unfold. cbn zeta. cbn [fst snd].
  replace (clamp (Z.of_nat (length children)) (Z.of_nat (length children)))
    with (Z.of_nat (length children)) by (unfold clamp; lia).
  replace (clamp (Z.of_nat (length children)) 0) with 0 by (unfold clamp; lia).
  rewrite Nat2Z.id, take_ge, drop_ge by lia.
  change (Z.to_nat 0) with 0%nat. by rewrite take_0, drop_0.
Qed.

Lemma split_at_ends_gives_clones_witness :
  (split (getChildrenSize Samples.abc) Samples.abc Samples.keys).1.1.1
  = (clone true true Samples.abc Samples.keys).1
  ∧ (split (getChildrenSize Samples.abc) Samples.abc Samples.keys).1.1.2
    = (clone false false Samples.abc Samples.keys).1
  ∧ (split 0 Samples.abc Samples.keys).1.1.1
    = (clone false true Samples.abc Samples.keys).1
  ∧ (split 0 Samples.abc Samples.keys).1.1.2
    = (clone true false Samples.abc Samples.keys).1.
Proof.
  apply (split_at_ends_gives_clones Samples.abc Samples.keys). reflexivity.
Defined.

Lemma toJSON_unstyled n : toJSON true (unstyled n) = toJSON true n.
Proof.
  induction n as [key parent text | key parent type style children IH]
    using Node_tree_ind; simpl; [done|].
  rewrite length_map, map_map. do 2 f_equal.
  by apply map_ext_Forall.
Qed.

Lemma toJSON_determines_unstyled a :
  ∀ b, toJSON true a = toJSON true b → unstyled a = unstyled b.
Proof.
  induction a as [key parent text | key parent type style children IH]
    using Node_tree_ind; intros [bkey bparent btype bstyle others | bkey bparent btext];
    simpl; intros Heq; try discriminate Heq.
  - by simplify_eq.
  - injection Heq as -> -> -> _ Hmap. f_equal.
    revert others Hmap.
    induction IH as [|c cs Hc _ IHcs]; intros [|o others]; simpl;
      intros Hmap; try discriminate Hmap; [done|].
    injection Hmap as Hhead Htail. f_equal; [by apply Hc | by apply IHcs].
Qed.

(** X20.  The serialized form with children records everything of a tree
    but its styles: two Elements have the same [toJSON(true)] exactly
    when they are the same tree once every style map is emptied. *)
Theorem toJSON_forgets_only_styles (E1 E2 : Node) :
  isElement E1 = true →
  isElement E2 = true →
  (toJSON true E1 = toJSON true E2 ↔ unstyled E1 = unstyled E2).
Proof.
  intros _ _. split.
  - apply toJSON_determines_unstyled.
  - intros Heq. by rewrite <- (toJSON_unstyled E1), Heq, toJSON_unstyled.
Qed.

Lemma toJSON_forgets_only_styles_witness :
  toJSON true Samples.styled
  = toJSON true (setStyle {[ "width" := StyleNumber 3 ]} Samples.styled)
  ↔ unstyled Samples.styled
    = unstyled (setStyle {[ "width" := StyleNumber 3 ]} Samples.styled).
Proof.
  apply (toJSON_forgets_only_styles Samples.styled
           (setStyle {[ "width" := StyleNumber 3 ]} Samples.styled));
    reflexivity.
Defined.

Lemma rebuilt_unstyled owner n :
  linked_under owner n = true → dispatched n = true →
  rebuilt (Some owner) n = unstyled n.
Proof.
  revert owner.
  induction n as [key parent text | key parent type style children IH]
    using Node_tree_ind; intros owner; cbn [linked_under dispatched getParentKey].
  - intros [->%bool_decide_eq_true _]%andb_true_iff _. done.
  - intros [->%bool_decide_eq_true Hl]%andb_true_iff
      [Htype%negb_true_iff Hd]%andb_true_iff.
    simpl. rewrite Htype. f_equal.
    rewrite forallb_Forall in Hl, Hd. apply map_ext_Forall.
    rewrite Forall_forall in IH, Hl, Hd |- *. intros c Hin. by apply IH; auto.
Qed.

Lemma styleless_unstyled n : styleless n = true → unstyled n = n.
Proof.
  induction n as [key parent text | key parent type style children IH]
    using Node_tree_ind; simpl; [done|].
  intros [->%bool_decide_eq_true Hs]%andb_true_iff. f_equal.
  rewrite forallb_Forall in Hs. rewrite <- (map_id children) at 2.
  apply map_ext_Forall. rewrite Forall_forall in IH, Hs |- *.
  intros c Hin. by apply IH, Hs.
Qed.

(** X21.  The round trip, exactly.  For an Element whose stored children
    name their owners and were built by the polymorphic constructor,
    constructing from [toJSON(true)] gives the same tree with every style
    map emptied, and uses no key from the key source; when no Element of
    the tree has a style, it gives the tree itself. *)
Theorem roundtrip_exact (E : Node) (ks : KeySource) :
  isElement E = true →
  well_linked E = true →
  dispatched_children E = true →
  new (toJSON true E) ks = (unstyled E, ks)
  ∧ (styleless E = true → new (toJSON true E) ks = (E, ks)).
Proof.
  destruct E as [key parent type style children | ]; [intros _ | done].
  unfold well_linked, dispatched_children. cbn [getChildren getKey].
  rewrite !forallb_Forall. intros Hl Hd.
  assert (new (toJSON true (ElementNode key parent type style children)) ks
          = (unstyled (ElementNode key parent type style children), ks)) as Hnew.
  { pose proof (create_toJSON_true key parent type style children ks) as Hc.
    unfold create in Hc. rewrite Hc. simpl. do 2 f_equal.
    apply map_ext_Forall. rewrite Forall_forall in Hl, Hd |- *.
    intros c Hin. apply rebuilt_unstyled; auto. }
  split; [done|]. intros Hs. by rewrite Hnew, styleless_unstyled.
Qed.

Lemma roundtrip_exact_witness :
  new (toJSON true Samples.two_level) Samples.keys
  = (unstyled Samples.two_level, Samples.keys)
  ∧ (styleless Samples.two_level = true →
     new (toJSON true Samples.two_level) Samples.keys
     = (Samples.two_level, Samples.keys)).
Proof.
  apply (roundtrip_exact Samples.two_level Samples.keys); reflexivity.
Defined.

Lemma isEmpty_every key parent type style children :
  isEmpty (ElementNode key parent type style children) = forallb isEmpty children.
Proof.
  cbn [isEmpty]. unfold JSArray.every. destruct children as [|c cs]; [done|].
  destruct (Z.eqb_spec (Z.of_nat (length (c :: cs))) 0) as [H|_]; [|done].
  simpl in H. lia.
Qed.

Lemma isEmpty_rebuilt p n : dispatched n = true → isEmpty (rebuilt p n) = isEmpty n.
Proof.
  revert p. induction n as [key parent text | key parent type style children IH]
    using Node_tree_ind; intros p; [done|].
  cbn [dispatched rebuilt]. intros [Htype%negb_true_iff Hd]%andb_true_iff.
  rewrite Htype, !isEmpty_every. rewrite forallb_Forall in Hd.
  induction IH as [|c cs Hc _ IHcs]; simpl; [done|].
  apply Forall_cons in Hd as [Hdc Hdcs]. by rewrite Hc, IHcs.
Qed.

(** X22.  Emptiness survives [split]: an Element (with children built by
    the polymorphic constructor) is empty exactly when both Elements that
    [split] returns are empty, at any offset. *)
Theorem split_keeps_emptiness (E : Node) (offset : Z) (ks : KeySource) :
  isElement E = true →
  dispatched_children E = true →
  isEmpty E
  = isEmpty (split offset E ks).1.1.1 && isEmpty (split offset E ks).1.1.2.
Proof.
  destruct E as [key parent type style children | ]; [intros _ | done].
  unfold dispatched_children. cbn [getChildren]. rewrite forallb_Forall.
  intros Hd. rewrite split_unfold. cbn zeta. cbn [fst snd].
  set (k := Z.to_nat (clamp (Z.of_nat (length children)) offset)).
  rewrite !isEmpty_every. rewrite <- (take_drop k children) at 1.
  rewrite forallb_app. f_equal.
  - assert (Forall (λ a, dispatched a = true) (take k children)) as Ht
      by by apply Forall_take.
    clear -Ht.
    induction Ht as [|c cs Hc _ IH]; simpl; [done|].
    by rewrite isEmpty_rebuilt, IH.
  - assert (Forall (λ a, dispatched a = true) (drop k children)) as Ht
      by by apply Forall_drop.
    clear -Ht.
    induction Ht as [|c cs Hc _ IH]; simpl; [done|].
    by rewrite isEmpty_rebuilt, IH.
Qed.

Lemma split_keeps_emptiness_witness :
  isEmpty Samples.abc
  = isEmpty (split 1 Samples.abc Samples.keys).1.1.1
    && isEmpty (split 1 Samples.abc Samples.keys).1.1.2.
Proof.
  apply (split_keeps_emptiness Samples.abc 1 Samples.keys); reflexivity.
Defined.

(** ** insert at any offset *)

(** X23.  Whatever the offset, in range or not, [insert] loses nothing
    and adds exactly the children given: the child count grows by their
    number, the stored keys are the old keys and the given keys, the
    children already stored keep their relative order, and every key given
    is found by [hasChild] afterwards. *)
Theorem insert_adds_all (E : Node) (offset : Z) (items : list Node)
    (ks : KeySource) :
  isElement E = true →
  let E_after := (insert offset items E ks).1 in
  getChildrenSize E_after = getChildrenSize E + Z.of_nat (length items)
  ∧ getChildrenKeys E_after ≡ₚ getChildrenKeys E ++ map getKey items
  ∧ sublist (getChildren E) (getChildren E_after)
  ∧ (∀ item, item ∈ items → hasChild (getKey item) E_after = true).
Proof.
  destruct E as [key parent type style children | ]; [intros _ | done].
  cbn zeta. rewrite insert_unfold. cbn zeta.
  unfold getChildrenSize, getChildrenKeys. cbn [fst getChildren].
  set (k := Z.to_nat (JSArray.relIndex (Z.of_nat (length children)) offset)).
  assert (map getKey (take k children ++
            map (λ c, (adopt (ElementNode key parent type style children) c ks).1)
              items ++ drop k children)
          ≡ₚ map getKey children ++ map getKey items) as Hperm.
  { rewrite !map_app, adopted_keys.
    rewrite <- (take_drop k children) at 3. rewrite map_app.
    rewrite <- !app_assoc. apply Permutation_app_head, Permutation_app_comm. }
  split_and!.
  - rewrite !length_app, length_map.
    pose proof (length_app (take k children) (drop k children)) as Hlen.
    rewrite take_drop in Hlen. lia.
  - done.
  - rewrite <- (take_drop k children) at 1.
    apply sublist_app; [done|]. by apply sublist_inserts_l.
  - intros item Hin. apply hasChild_elem_of. unfold getChildrenKeys.
    cbn [getChildren]. rewrite Hperm. apply elem_of_app. right.
    by apply list_elem_of_fmap_2.
Qed.

Lemma insert_adds_all_witness :
  let E_after := (insert (-7) [Samples.x] Samples.abc Samples.keys).1 in
  getChildrenSize E_after
  = getChildrenSize Samples.abc + Z.of_nat (length [Samples.x])
  ∧ getChildrenKeys E_after
    ≡ₚ getChildrenKeys Samples.abc ++ map getKey [Samples.x]
  ∧ sublist (getChildren Samples.abc) (getChildren E_after)
  ∧ (∀ item, item ∈ [Samples.x] → hasChild (getKey item) E_after = true).
Proof.
  apply (insert_adds_all Samples.abc (-7) [Samples.x] Samples.keys). reflexivity.
Defined.
